(** * The transaction model, the strategy registry and the block store

    A shallow embedding of three Go packages of the node,

    - [foundation/blockchain/database]  (transaction.go),
    - [foundation/blockchain/mempool/selector]  (selector.go),
    - [foundation/blockchain/storage/disk]  (disk.go),

    followed by the properties established about them.  Go values are
    modelled as the code has them: unsigned integers are [Z] with the
    wrap-around written out, a [(T, error)] result is a pair whose second
    component is [None] for [nil], a panic is an explicit outcome, the
    directory on disk is a finite map from path to file. *)

From Stdlib Require Import ZArith Lia Ascii String.
From Stdlib.Strings Require Import Byte.
From stdpp Require Import gmap strings list sorting.

Local Open Scope string_scope.
Local Open Scope list_scope.
Local Open Scope Z_scope.

(** ** The Go runtime and the standard packages the code calls *)

Module Go.

Abbreviation bytes := (list Byte.byte).

(** The [errno] values the file operations below can raise. *)
Inductive Errno := ENOENT | EACCES | EROFS | ENOSPC | EBADF.

(** Operands of a formatting verb. *)
Inductive fmtArg :=
| argInt (n : Z)
| argString (s : string).

(** Error values by the way they are built: [errors.New], [fmt.Errorf]
    (format and operands kept apart, the rendering is not needed), the
    [*fs.PathError] of package [os], and the errors of [encoding/json]. *)
Inductive error :=
| errors_New (text : string)
| fmt_Errorf (format : string) (args : list fmtArg)
| PathError (op path : string) (errno : Errno)
| json_Error (text : string).

(** [errors.Is(err, fs.ErrNotExist)]: true exactly for a path error that
    wraps [ENOENT]; false for [nil]. *)
Definition errors_Is_ErrNotExist (err : option error) : bool :=
  match err with
  | Some (PathError _ _ ENOENT) => true
  | _ => false
  end.

(** A call either returns or panics. *)
Inductive panic :=
| index_out_of_range (i len : Z)
| panic_value (v : string).

Inductive outcome (A : Type) :=
| Returns (a : A)
| Panics (p : panic).

Arguments Returns {A} a.
Arguments Panics {A} p.

(** [n++] on a [uint64] wraps. *)
Definition uint64_mod : Z := 2 ^ 64.
Definition uint64_incr (n : Z) : Z := (n + 1) mod uint64_mod.

(** [strconv.FormatUint(u, 10)]: the loop peels the last digit while
    [u >= 10]; twenty digits are enough for a [uint64]. *)
Definition digit (u : Z) : ascii := ascii_of_nat (48 + Z.to_nat u).

Fixpoint formatBits (fuel : nat) (u : Z) (acc : string) : string :=
  match fuel with
  | O => String (digit (u mod 10)) acc
  | Datatypes.S fuel' =>
      if 10 <=? u
      then formatBits fuel' (u / 10) (String (digit (u mod 10)) acc)
      else String (digit u) acc
  end.

Definition strconv_FormatUint (u : Z) : string := formatBits 20 u "".

(** [strings.ToLower].  An all-ASCII string takes the fast path of the
    library, which shifts the bytes 'A'..'Z' by 32; any other string goes
    through [strings.Map(unicode.ToLower, s)], which needs the Unicode
    tables and is left to the environment. *)
Class Unicode := { strings_Map_unicode_ToLower : string -> string }.

Definition isASCII (c : ascii) : bool := (nat_of_ascii c <? 128)%nat.

Definition isUpperASCII (c : ascii) : bool :=
  ((65 <=? nat_of_ascii c) && (nat_of_ascii c <=? 90))%nat.

Definition lowerASCII (c : ascii) : ascii :=
  if isUpperASCII c then ascii_of_nat (nat_of_ascii c + 32) else c.

Fixpoint allASCII (s : string) : bool :=
  match s with
  | EmptyString => true
  | String c s' => isASCII c && allASCII s'
  end.

Fixpoint mapASCII (f : ascii -> ascii) (s : string) : string :=
  match s with
  | EmptyString => EmptyString
  | String c s' => String (f c) (mapASCII f s')
  end.

Definition strings_ToLower `{Unicode} (s : string) : string :=
  if allASCII s then mapASCII lowerASCII s
  else strings_Map_unicode_ToLower s.

(** Reading a decimal numeral back, most significant digit first: the
    value of the digits read so far is carried along. *)
Definition isDecimalDigit (c : ascii) : bool :=
  ((48 <=? nat_of_ascii c) && (nat_of_ascii c <=? 57))%nat.

Fixpoint decimal_value (acc : Z) (s : string) : Z :=
  match s with
  | EmptyString => acc
  | String c s' => decimal_value (10 * acc + Z.of_nat (nat_of_ascii c - 48)) s'
  end.

Fixpoint all_digits (s : string) : bool :=
  match s with
  | EmptyString => true
  | String c s' => isDecimalDigit c && all_digits s'
  end.

End Go.

(** ** Package os: one directory tree as a finite map from path to file *)

Module os.
Import Go.

Definition O_RDONLY : Z := 0.
Definition O_WRONLY : Z := 1.
Definition O_RDWR : Z := 2.
Definition O_CREATE : Z := 64.
Definition O_TRUNC : Z := 512.

(** A regular file: permission bits and content. *)
Record inode := { i_mode : Z; i_data : bytes }.

(** The file system: its files, the free space in bytes, and whether it
    is mounted read-only. *)
Record fsys := { files : gmap string inode; free : nat; readonly : bool }.

(** An open file: the path it was opened at, the flags, the offset. *)
Record File := { f_name : string; f_flag : Z; f_offset : nat }.

Definition wants_read (flag : Z) : bool :=
  (Z.land flag 3 =? O_RDONLY) || (Z.land flag 3 =? O_RDWR).

Definition wants_write (flag : Z) : bool :=
  (Z.land flag 3 =? O_WRONLY) || (Z.land flag 3 =? O_RDWR).

Definition owner_may_read (ino : inode) : bool := Z.testbit (i_mode ino) 8.
Definition owner_may_write (ino : inode) : bool := Z.testbit (i_mode ino) 7.

(** [os.OpenFile(name, flag, perm)].  A missing file is created only under
    [O_CREATE]; an existing file is emptied only under [O_TRUNC]. *)
Definition OpenFile (fs : fsys) (name : string) (flag perm : Z)
  : fsys * (File + error) :=
  let handle := {| f_name := name; f_flag := flag; f_offset := 0 |} in
  match files fs !! name with
  | None =>
      if Z.testbit flag 6 then
        if readonly fs then (fs, inr (PathError "open" name EROFS))
        else ({| files := <[name := {| i_mode := perm; i_data := [] |}]> (files fs);
                 free := free fs; readonly := readonly fs |}, inl handle)
      else (fs, inr (PathError "open" name ENOENT))
  | Some ino =>
      if wants_write flag && readonly fs
      then (fs, inr (PathError "open" name EROFS))
      else if (wants_read flag && negb (owner_may_read ino))
              || (wants_write flag && negb (owner_may_write ino))
      then (fs, inr (PathError "open" name EACCES))
      else if Z.testbit flag 9 && wants_write flag
      then ({| files := <[name := {| i_mode := i_mode ino; i_data := [] |}]> (files fs);
               free := (free fs + length (i_data ino))%nat;
               readonly := readonly fs |}, inl handle)
      else (fs, inl handle)
  end.

(** The content of a file after [n] bytes of [b] were written at offset
    [off]: bytes before the offset stay, the written bytes replace what
    was there, bytes beyond the written range stay. *)
Definition overwrite (old : bytes) (off : nat) (b : bytes) : bytes :=
  take off old ++ replicate (off - length old) Byte.x00 ++ b
    ++ drop (off + length b) old.

(** [f.Write(b)]: writes at the offset of the handle as many bytes as in
    place plus the free space allow, and reports [ENOSPC] when that is
    fewer than [len(b)]. *)
Definition File_Write (fs : fsys) (f : File) (b : bytes)
  : fsys * File * (nat * option error) :=
  match files fs !! f_name f with
  | None => (fs, f, (0%nat, Some (PathError "write" (f_name f) EBADF)))
  | Some ino =>
      if negb (wants_write (f_flag f))
      then (fs, f, (0%nat, Some (PathError "write" (f_name f) EBADF)))
      else
        let room := (length (i_data ino) - f_offset f)%nat in
        let n := (length b `min` (room + free fs))%nat in
        let new := overwrite (i_data ino) (f_offset f) (take n b) in
        ({| files := <[f_name f := {| i_mode := i_mode ino; i_data := new |}]> (files fs);
            free := (free fs - (n - room))%nat;
            readonly := readonly fs |},
         {| f_name := f_name f; f_flag := f_flag f; f_offset := (f_offset f + n)%nat |},
         (n, if (n <? length b)%nat
             then Some (PathError "write" (f_name f) ENOSPC) else None))
  end.

(** What reading the handle to the end yields. *)
Definition File_stream (fs : fsys) (f : File) : bytes :=
  match files fs !! f_name f with
  | None => []
  | Some ino => drop (f_offset f) (i_data ino)
  end.

(** [f.Close()] releases the handle; the files are as they were. *)
Definition File_Close (fs : fsys) (f : File) : fsys := fs.

(** The bytes of the record at a path, none for a missing file. *)
Definition previous (fs : fsys) (path : string) : bytes :=
  match files fs !! path with
  | Some ino => i_data ino
  | None => []
  end.

End os.

(** ** Package database: transactions (transaction.go) *)

Module database.
Import Go.

(** An account is named by a string; [*big.Int] is [nil] or an integer. *)
Definition AccountID := string.
Abbreviation bigInt := (option Z).

Record Tx := {
  ChainID : Z;
  Nonce : Z;
  FromID : AccountID;
  ToID : AccountID;
  Value : Z;
  Tip : Z;
  Data : bytes
}.

(** [Tx{}] *)
Definition Tx_zero : Tx :=
  {| ChainID := 0; Nonce := 0; FromID := ""; ToID := ""; Value := 0;
     Tip := 0; Data := [] |}.

Record SignedTx := {
  SignedTx_Tx : Tx;
  V : bigInt;
  R : bigInt;
  S : bigInt
}.

(** [SignedTx{}] *)
Definition SignedTx_zero : SignedTx :=
  {| SignedTx_Tx := Tx_zero; V := None; R := None; S := None |}.

(** The method [AccountID.IsAccountID] is declared in another file of the
    package; the code below only calls it. *)
Class Accounts := { IsAccountID : AccountID -> bool }.

(** Package [signature], called through three functions:
    [Sign] returns [(v, r, s, err)], [VerifySignature] an error or [nil],
    [FromAddress] an address and an error. *)
Class Signing := {
  PrivateKey : Type;
  signature_Sign : Tx -> PrivateKey -> bigInt * bigInt * bigInt * option error;
  signature_VerifySignature : bigInt -> bigInt -> bigInt -> option error;
  signature_FromAddress : Tx -> bigInt -> bigInt -> bigInt -> string * option error
}.

Definition NewTx `{Accounts} (chainID nonce : Z) (fromID toID : AccountID)
    (value tip : Z) (data : bytes) : Tx * option error :=
  if negb (IsAccountID fromID)
  then (Tx_zero, Some (errors_New "from account is not properly formatted"))
  else if negb (IsAccountID toID)
  then (Tx_zero, Some (errors_New "to account is not properly formatted"))
  else ({| ChainID := chainID; Nonce := nonce; FromID := fromID; ToID := toID;
           Value := value; Tip := tip; Data := data |}, None).

Definition Sign `{Signing} (tx : Tx) (privateKey : PrivateKey)
  : SignedTx * option error :=
  match signature_Sign tx privateKey with
  | (_, _, _, Some err) => (SignedTx_zero, Some err)
  | (v, r, s, None) => ({| SignedTx_Tx := tx; V := v; R := r; S := s |}, None)
  end.

Definition Validate `{Accounts} `{Signing} (tx : SignedTx) (chainID : Z)
  : option error :=
  if negb (ChainID (SignedTx_Tx tx) =? chainID)
  then Some (fmt_Errorf "invalid chain id, got[%d] exp[%d]"
               [argInt (ChainID (SignedTx_Tx tx)); argInt chainID])
  else if negb (IsAccountID (FromID (SignedTx_Tx tx)))
  then Some (errors_New "from account is not properly formatted")
  else if negb (IsAccountID (ToID (SignedTx_Tx tx)))
  then Some (errors_New "to account is not properly formatted")
  else if String.eqb (FromID (SignedTx_Tx tx)) (ToID (SignedTx_Tx tx))
  then Some (fmt_Errorf
               "transaction invalid, sending money to yourself, from %s, to %s"
               [argString (FromID (SignedTx_Tx tx));
                argString (ToID (SignedTx_Tx tx))])
  else
    match signature_VerifySignature (V tx) (R tx) (S tx) with
    | Some err => Some err
    | None =>
        match signature_FromAddress (SignedTx_Tx tx) (V tx) (R tx) (S tx) with
        | (_, Some err) => Some err
        | (address, None) =>
            if negb (String.eqb address (FromID (SignedTx_Tx tx)))
            then Some (errors_New "signature address doesn't match from address")
            else None
        end
    end.

(** Modelled from the spec: the declarations of [BlockTx], [BlockHeader]
    and [BlockData], which are in another file of the package.  The spec
    gives a block as a header with a number and an ordered sequence of
    [BlockTx], each a [SignedTx] with metadata of block production; the
    code reads [Header.Number], [Nonce] and [Tip]. *)
Record BlockTx := {
  BlockTx_SignedTx : SignedTx;
  TimeStamp : Z
}.

Record BlockHeader := { Number : Z }.

Record BlockData := {
  Header : BlockHeader;
  Trans : list BlockTx
}.

(** [BlockData{}] *)
Definition BlockData_zero : BlockData :=
  {| Header := {| Number := 0 |}; Trans := [] |}.

(** The two fields of the embedded transaction that the selector reads. *)
Definition BlockTx_Nonce (t : BlockTx) : Z := Nonce (SignedTx_Tx (BlockTx_SignedTx t)).
Definition BlockTx_Tip (t : BlockTx) : Z := Tip (SignedTx_Tx (BlockTx_SignedTx t)).

(** The checks of a validation as a list, each with the error of its
    failure, and the first failure of such a list. *)
Fixpoint first_failure (checks : list (bool * error)) : option error :=
  match checks with
  | [] => None
  | (true, _) :: rest => first_failure rest
  | (false, err) :: _ => Some err
  end.

(** A call that returns an error or [nil], as a check. *)
Definition check_of (result : option error) : bool * error :=
  match result with
  | None => (true, errors_New "")
  | Some err => (false, err)
  end.

(** The first four checks of [Validate] and the check of the signature
    values, with the errors of their failure. *)
Definition admission_checks `{Accounts} `{Signing} (tx : SignedTx) (chainID : Z)
  : list (bool * error) :=
  let t := SignedTx_Tx tx in
  [ (ChainID t =? chainID,
     fmt_Errorf "invalid chain id, got[%d] exp[%d]"
       [argInt (ChainID t); argInt chainID]);
    (IsAccountID (FromID t), errors_New "from account is not properly formatted");
    (IsAccountID (ToID t), errors_New "to account is not properly formatted");
    (negb (String.eqb (FromID t) (ToID t)),
     fmt_Errorf "transaction invalid, sending money to yourself, from %s, to %s"
       [argString (FromID t); argString (ToID t)]);
    check_of (signature_VerifySignature (V tx) (R tx) (S tx)) ].

(** The sixth check in the words of the spec: the recovered address is the
    sender, else the signer-mismatch error. *)
Definition signer_check `{Signing} (tx : SignedTx) : bool * error :=
  (String.eqb
     (fst (signature_FromAddress (SignedTx_Tx tx) (V tx) (R tx) (S tx)))
     (FromID (SignedTx_Tx tx)),
   errors_New "signature address doesn't match from address").

(** The recovery of the address as a check of its own. *)
Definition recovery_check `{Signing} (tx : SignedTx) : bool * error :=
  check_of (snd (signature_FromAddress (SignedTx_Tx tx) (V tx) (R tx) (S tx))).

(** The six checks of the spec, and the checks with the recovery among
    them. *)
Definition six_checks `{Accounts} `{Signing} (tx : SignedTx) (chainID : Z)
  : list (bool * error) :=
  admission_checks tx chainID ++ [signer_check tx].

Definition checks_with_recovery `{Accounts} `{Signing} (tx : SignedTx)
    (chainID : Z) : list (bool * error) :=
  admission_checks tx chainID ++ [recovery_check tx; signer_check tx].

Definition all_pass (checks : list (bool * error)) : bool :=
  forallb fst checks.


(** [SignedTx.String]: [fmt.Sprintf("%s:%d", tx.FromID, tx.Nonce)], the
    sender, a colon, the nonce in decimal. *)
Definition SignedTx_String (tx : SignedTx) : string :=
  (FromID (SignedTx_Tx tx) ++ ":"
     ++ strconv_FormatUint (Nonce (SignedTx_Tx tx)))%string.

End database.

(** ** Package selector: the strategy registry and the two orderings
    (selector.go) *)

Module selector.
Import Go.

Definition StrategyTip : string := "tip".
Definition StrategyTipAdvanced : string := "tip_advanced".

(** [Func]: from the pending transactions by account and a count to the
    selected transactions. *)
Definition Func : Type :=
  gmap database.AccountID (list database.BlockTx) -> Z -> list database.BlockTx.

(** [tipSelect] is defined in another file of the package; the registry
    only stores it. *)
Class Selectors := { tipSelect : Func }.

(** The package variable [strategies] as initialised. *)
Definition strategies `{Selectors} : gmap string Func :=
  {[ StrategyTip := tipSelect ]}.

(** [Retrieve] reads the package variable; it is threaded through so that
    what the call leaves behind can be stated. *)
Definition Retrieve `{Unicode} (strategy : string) (registry : gmap string Func)
  : gmap string Func * (option Func * option error) :=
  match registry !! strings_ToLower strategy with
  | None =>
      (registry,
       (None, Some (fmt_Errorf "strategy %q does not exist" [argString strategy])))
  | Some fn => (registry, (Some fn, None))
  end.

(** [sort.Interface], with the panics of its methods made explicit.
    [Swap] acts on the backing array of the slice: it returns the new
    content. *)
Class sort_Interface (T : Type) := {
  Len : T -> Z;
  Less : T -> Z -> Z -> outcome bool;
  Swap : T -> Z -> Z -> outcome T
}.

(** [b[i]] on a slice: panics outside [0 <= i < len(b)]. *)
Definition index (b : list database.BlockTx) (i : Z) : outcome database.BlockTx :=
  if (0 <=? i) && (i <? Z.of_nat (length b)) then
    match b !! Z.to_nat i with
    | Some t => Returns t
    | None => Panics (index_out_of_range i (Z.of_nat (length b)))
    end
  else Panics (index_out_of_range i (Z.of_nat (length b))).

Inductive byNonce := ByNonce (b : list database.BlockTx).

Definition byNonce_Len (b : byNonce) : Z :=
  let 'ByNonce l := b in Z.of_nat (length l).

Definition byNonce_Less (b : byNonce) (i j : Z) : outcome bool :=
  let 'ByNonce l := b in
  match index l i with
  | Panics p => Panics p
  | Returns bi =>
      match index l j with
      | Panics p => Panics p
      | Returns bj => Returns (database.BlockTx_Nonce bi <? database.BlockTx_Nonce bj)
      end
  end.

(** [b[i], b[j] = b[j], b[i]]: both elements are read, then both are
    stored.  The compiled code checks the bounds of [b[i]] first, then
    those of [b[j]]. *)
Definition byNonce_Swap (b : byNonce) (i j : Z) : outcome byNonce :=
  let 'ByNonce l := b in
  match index l i with
  | Panics p => Panics p
  | Returns bi =>
      match index l j with
      | Panics p => Panics p
      | Returns bj =>
          Returns (ByNonce (<[Z.to_nat j := bi]> (<[Z.to_nat i := bj]> l)))
      end
  end.

#[global] Instance byNonce_Interface : sort_Interface byNonce :=
  {| Len := byNonce_Len; Less := byNonce_Less; Swap := byNonce_Swap |}.

Inductive byTip := ByTip (b : list database.BlockTx).

Definition byTip_Len (b : byTip) : Z :=
  let 'ByTip l := b in Z.of_nat (length l).

Definition byTip_Less (b : byTip) (i j : Z) : outcome bool :=
  let 'ByTip l := b in
  match index l i with
  | Panics p => Panics p
  | Returns bi =>
      match index l j with
      | Panics p => Panics p
      | Returns bj => Returns (database.BlockTx_Tip bi >? database.BlockTx_Tip bj)
      end
  end.

Definition byTip_Swap (b : byTip) (i j : Z) : outcome byTip :=
  Panics (panic_value "implement me").

#[global] Instance byTip_Interface : sort_Interface byTip :=
  {| Len := byTip_Len; Less := byTip_Less; Swap := byTip_Swap |}.

(** A sorting algorithm sees its data only through the three methods.  It
    is a tree of calls: each node is one call, the branches are the
    answers. *)
Inductive sorter :=
| Finish
| CallLen (k : Z -> sorter)
| CallLess (i j : Z) (k : bool -> sorter)
| CallSwap (i j : Z) (k : sorter).

(** Running a sorter on data: a panic of a method ends the run. *)
Fixpoint run {T : Type} `{sort_Interface T} (p : sorter) (data : T) : outcome T :=
  match p with
  | Finish => Returns data
  | CallLen k => run (k (Len data)) data
  | CallLess i j k =>
      match Less data i j with
      | Panics e => Panics e
      | Returns c => run (k c) data
      end
  | CallSwap i j k =>
      match Swap data i j with
      | Panics e => Panics e
      | Returns data' => run k data'
      end
  end.

(** The run of a sorter on [data] comes to a call of [Swap]. *)
Inductive reaches_Swap {T : Type} `{sort_Interface T} (data : T) : sorter -> Prop :=
| reaches_here i j k : reaches_Swap data (CallSwap i j k)
| reaches_after_Len k :
    reaches_Swap data (k (Len data)) -> reaches_Swap data (CallLen k)
| reaches_after_Less i j k c :
    Less data i j = Returns c -> reaches_Swap data (k c) ->
    reaches_Swap data (CallLess i j k).

(** The insertion sort of package [sort], on the range [a, b):
    [for i := a+1; i < b; i++ { for j := i; j > a && Less(j, j-1); j-- { Swap(j, j-1) } }].
    The counters of the two loops are the fuel of the two functions. *)
Fixpoint insertion_inner (steps : nat) (j : Z) (next : sorter) : sorter :=
  match steps with
  | O => next
  | Datatypes.S steps' =>
      CallLess j (j - 1) (fun lt =>
        if lt then CallSwap j (j - 1) (insertion_inner steps' (j - 1) next)
        else next)
  end.

Fixpoint insertion_outer (rounds : nat) (a i : Z) : sorter :=
  match rounds with
  | O => Finish
  | Datatypes.S rounds' =>
      insertion_inner (Z.to_nat (i - a)) i (insertion_outer rounds' a (i + 1))
  end.

Definition insertionSort : sorter :=
  CallLen (fun n => insertion_outer (Z.to_nat (n - 1)) 0 1).


(** What the inner loop of the insertion sort does to a list, read on the
    reversed sorted front: the new element goes past every element that
    [less] puts after it. *)
Fixpoint insert_back (less : database.BlockTx -> database.BlockTx -> bool)
    (x : database.BlockTx) (front : list database.BlockTx)
  : list database.BlockTx :=
  match front with
  | [] => [x]
  | y :: front' =>
      if less x y then y :: insert_back less x front' else x :: y :: front'
  end.

Definition nonce_less (x y : database.BlockTx) : bool :=
  database.BlockTx_Nonce x <? database.BlockTx_Nonce y.

(** The tips of a list never go up from one element to the next, with
    [prev] the tip before the list. *)
Fixpoint tips_descend_from (prev : Z) (l : list database.BlockTx) : bool :=
  match l with
  | [] => true
  | x :: l' =>
      (database.BlockTx_Tip x <=? prev) && tips_descend_from (database.BlockTx_Tip x) l'
  end.

Definition tips_descend (l : list database.BlockTx) : bool :=
  match l with
  | [] => true
  | x :: l' => tips_descend_from (database.BlockTx_Tip x) l'
  end.

End selector.

(** ** Package disk: one file per block (disk.go) *)

Module disk.
Import Go.

(** What the package takes from the standard library besides [os]:
    [path.Join] on two elements, [json.MarshalIndent] on a block (the
    encoding or the text of an error), and [Decode] of a decoder reading a
    stream of bytes (the first value of the stream or the text of an
    error). *)
Class Libraries := {
  path_Join : string -> string -> string;
  json_MarshalIndent : database.BlockData -> string -> string -> bytes + string;
  json_Decoder_Decode : bytes -> database.BlockData + string
}.

Record Disk := { dbPath : string }.

(** [Close] has nothing to do. *)
Definition Close (d : Disk) : option error := None.

Definition getPath `{Libraries} (d : Disk) (blockNum : Z) : string :=
  let name := strconv_FormatUint blockNum in
  path_Join (dbPath d) (name ++ ".json")%string.

(** The file name of the record of a block number, and the one thing the
    store needs of [path.Join]: joined to the directory of the store, the
    file names of two records give one path only when they are one name.
    ([path.Join] cleans the path it returns; a name made of digits and
    [.json] is the last element of the cleaned path as it is.) *)
Definition recordName (blockNum : Z) : string :=
  (strconv_FormatUint blockNum ++ ".json")%string.

Definition keeps_records_apart `{Libraries} (d : Disk) : Prop :=
  forall n m : Z,
    0 <= n < uint64_mod -> 0 <= m < uint64_mod ->
    path_Join (dbPath d) (recordName n) = path_Join (dbPath d) (recordName m) ->
    recordName n = recordName m.

Definition Write `{Libraries} (d : Disk) (blockData : database.BlockData)
    (fs : os.fsys) : os.fsys * option error :=
  match json_MarshalIndent blockData "" "  " with
  | inr _ => (fs, None)
  | inl data =>
      match os.OpenFile fs
              (getPath d (database.Number (database.Header blockData)))
              (Z.lor os.O_CREATE os.O_RDWR) 384 (* 0600 *) with
      | (fs1, inr err) => (fs1, Some err)
      | (fs1, inl f) =>
          match os.File_Write fs1 f data with
          | (fs2, f', (_, Some err)) => (os.File_Close fs2 f', Some err)
          | (fs2, f', (_, None)) => (os.File_Close fs2 f', None)
          end
      end
  end.

Definition GetBlock `{Libraries} (d : Disk) (num : Z) (fs : os.fsys)
  : os.fsys * (database.BlockData * option error) :=
  match os.OpenFile fs (getPath d num) os.O_RDONLY 384 (* 0600 *) with
  | (fs1, inr err) => (fs1, (database.BlockData_zero, Some err))
  | (fs1, inl f) =>
      match json_Decoder_Decode (os.File_stream fs1 f) with
      | inr text =>
          (os.File_Close fs1 f, (database.BlockData_zero, Some (json_Error text)))
      | inl blockData => (os.File_Close fs1 f, (blockData, None))
      end
  end.

Record diskIterator := {
  storage : Disk;
  currentBlockNumber : Z;
  endOfChain : bool
}.

Definition ForEach (d : Disk) : diskIterator :=
  {| storage := d; currentBlockNumber := 0; endOfChain := false |}.

Definition Next `{Libraries} (di : diskIterator) (fs : os.fsys)
  : diskIterator * os.fsys * (database.BlockData * option error) :=
  if endOfChain di
  then (di, fs, (database.BlockData_zero, Some (errors_New "end of chain")))
  else
    let di1 := {| storage := storage di;
                  currentBlockNumber := uint64_incr (currentBlockNumber di);
                  endOfChain := endOfChain di |} in
    let '(fs1, (blockData, err)) := GetBlock (storage di1) (currentBlockNumber di1) fs in
    let di2 := if errors_Is_ErrNotExist err
               then {| storage := storage di1;
                       currentBlockNumber := currentBlockNumber di1;
                       endOfChain := true |}
               else di1 in
    (di2, fs1, (blockData, err)).

Definition Done (di : diskIterator) : bool := endOfChain di.

(** [n] successive calls of [Next], with the results in the order of the
    calls. *)
Fixpoint Next_times `{Libraries} (n : nat) (di : diskIterator) (fs : os.fsys)
  : diskIterator * os.fsys * list (database.BlockData * option error) :=
  match n with
  | O => (di, fs, [])
  | Datatypes.S n' =>
      let '(di1, fs1, r) := Next di fs in
      let '(di2, fs2, rs) := Next_times n' di1 fs1 in
      (di2, fs2, r :: rs)
  end.



(** The store holds the chain [bs]: record [k] is readable and decodes to
    the [k]-th block, which carries the number [k], for [k] from one to
    the length of [bs], and there is no record for the number after the
    last.  A store whose records are exactly the blocks one to [N] is of
    this kind; the iterator looks at no other record. *)
Definition holds_chain `{Libraries} (d : Disk) (fs : os.fsys)
    (bs : list database.BlockData) : Prop :=
  Z.of_nat (length bs) < uint64_mod
  /\ (forall (k : nat) (b : database.BlockData),
        bs !! k = Some b ->
        database.Number (database.Header b) = Z.of_nat k + 1
        /\ exists ino,
             os.files fs !! getPath d (Z.of_nat k + 1) = Some ino
             /\ os.owner_may_read ino = true
             /\ json_Decoder_Decode (os.i_data ino) = inl b)
  /\ os.files fs !! getPath d (uint64_incr (Z.of_nat (length bs))) = None.


(** The blocks of a list written one after the other, up to the first
    error. *)
Fixpoint Write_each `{Libraries} (d : Disk) (bs : list database.BlockData)
    (fs : os.fsys) : os.fsys * option error :=
  match bs with
  | [] => (fs, None)
  | b :: bs' =>
      match Write d b fs with
      | (fs1, Some err) => (fs1, Some err)
      | (fs1, None) => Write_each d bs' fs1
      end
  end.

End disk.

(** ** Instances of the environment, for the examples

    Small stand-ins for the collaborators that the three packages call;
    the theorems below hold for every instance, the examples are run on
    these. *)

Module examples.
Import Go.

(** Non-ASCII names are left as they are. *)
Definition unicode : Unicode := {| strings_Map_unicode_ToLower := fun s => s |}.

Definition selectors : selector.Selectors :=
  {| selector.tipSelect := fun _ howMany => [] |}.

(** An account: [0x] and forty hexadecimal digits. *)
Definition isHex (c : ascii) : bool :=
  let n := nat_of_ascii c in
  ((48 <=? n) && (n <=? 57) || (65 <=? n) && (n <=? 70)
   || (97 <=? n) && (n <=? 102))%nat.

Fixpoint allHex (s : string) : bool :=
  match s with
  | EmptyString => true
  | String c s' => isHex c && allHex s'
  end.

Definition accounts : database.Accounts :=
  {| database.IsAccountID := fun a =>
       match a with
       | String "0" (String "x" digits) =>
           (String.length digits =? 40)%nat && allHex digits
       | _ => false
       end |}.

(** A signing service without any cryptography: the key is the account of
    its owner, [r] carries the length of that account, [s] the nonce plus
    one, and the signer is recovered from the sender field when the
    length agrees.  The signature values are accepted when none is [nil];
    the recovery fails when [s] is zero. *)
Definition signing : database.Signing :=
  {| database.PrivateKey := database.AccountID;
     database.signature_Sign := fun tx key =>
       (Some 29, Some (Z.of_nat (String.length key)),
        Some (database.Nonce tx + 1), None);
     database.signature_VerifySignature := fun v r s =>
       match v, r, s with
       | Some _, Some _, Some _ => None
       | _, _, _ => Some (errors_New "invalid signature values")
       end;
     database.signature_FromAddress := fun tx v r s =>
       match r, s with
       | Some len, Some sv =>
           if sv =? 0 then ("", Some (errors_New "invalid signature recovery id"))
           else if len =? Z.of_nat (String.length (database.FromID tx))
           then (database.FromID tx, None)
           else ("0x0000000000000000000000000000000000000000", None)
       | _, _ => ("", Some (errors_New "invalid signature values"))
       end |}.

(** A line format instead of JSON: a block without transactions is
    written as [block:<number>;], any other block is refused; the decoder
    reads up to the semicolon and leaves the rest of the stream alone. *)
Definition isDigit (c : ascii) : bool :=
  ((48 <=? nat_of_ascii c) && (nat_of_ascii c <=? 57))%nat.

Fixpoint read_number (s : string) (acc : Z) : option (Z * string) :=
  match s with
  | EmptyString => None
  | String c rest =>
      if isDigit c
      then read_number rest (10 * acc + Z.of_nat (nat_of_ascii c - 48))
      else Some (acc, s)
  end.

Fixpoint strip (prefix s : string) : option string :=
  match prefix, s with
  | EmptyString, _ => Some s
  | String p prefix', String c s' =>
      if Ascii.eqb p c then strip prefix' s' else None
  | String _ _, EmptyString => None
  end.

Definition encode_line (b : database.BlockData) : bytes + string :=
  match database.Trans b with
  | [] =>
      inl (list_byte_of_string
             ("block:" ++ strconv_FormatUint (database.Number (database.Header b))
                ++ ";")%string)
  | _ :: _ => inr "transactions are not covered by the line format"
  end.

Definition decode_line (stream : bytes) : database.BlockData + string :=
  match strip "block:" (string_of_list_byte stream) with
  | None => inr "unexpected start of record"
  | Some rest =>
      match read_number rest 0 with
      | Some (n, String ";" _) =>
          inl {| database.Header := {| database.Number := n |};
                 database.Trans := [] |}
      | _ => inr "unexpected end of record"
      end
  end.

Definition libraries : disk.Libraries :=
  {| disk.path_Join := fun dir name => (dir ++ "/" ++ name)%string;
     disk.json_MarshalIndent := fun b _ _ => encode_line b;
     disk.json_Decoder_Decode := decode_line |}.

(** Sample values. *)
Definition kennedy : database.AccountID := "0xF01813E4B85e178A83e29B8E7bF26BD830a25f32".
Definition pavel : database.AccountID := "0xdd6B972ffcc631a62CAE1BB9d80b7ff429c8ebA4".

Definition tx_of (chain nonce : Z) (from to : database.AccountID) (tip : Z)
  : database.Tx :=
  {| database.ChainID := chain; database.Nonce := nonce;
     database.FromID := from; database.ToID := to;
     database.Value := 100; database.Tip := tip; database.Data := [] |}.

Definition signed (tx : database.Tx) (s : Z) : database.SignedTx :=
  {| database.SignedTx_Tx := tx; database.V := Some 29;
     database.R := Some 42; database.S := Some s |}.

(** A payment of an account to itself on chain one, signed. *)
Definition self_payment : database.SignedTx :=
  signed (tx_of 1 7 kennedy kennedy 5) 8.

(** A payment whose signature values are well formed but from which no
    address can be recovered. *)
Definition unrecoverable : database.SignedTx :=
  signed (tx_of 1 7 kennedy pavel 5) 0.

Definition blocktx (nonce tip : Z) : database.BlockTx :=
  {| database.BlockTx_SignedTx := signed (tx_of 1 nonce kennedy pavel tip) (nonce + 1);
     database.TimeStamp := 0 |}.

Definition block (n : Z) (trans : list database.BlockTx) : database.BlockData :=
  {| database.Header := {| database.Number := n |}; database.Trans := trans |}.

Definition store : disk.Disk := {| disk.dbPath := "zblock/miner1" |}.

Definition empty_fs : os.fsys :=
  {| os.files := ∅; os.free := 4096; os.readonly := false |}.

(** A file system with one file, owned and read-write (mode 0600). *)
Definition fs_with (path content : string) : os.fsys :=
  {| os.files := {[ path := {| os.i_mode := 384;
                               os.i_data := list_byte_of_string content |} ]};
     os.free := 4096; os.readonly := false |}.

(** The store after block one and block two were written to an empty
    directory. *)
Definition two_blocks_fs : os.fsys :=
  fst (disk.Write (H := libraries) store (block 2 [])
         (fst (disk.Write (H := libraries) store (block 1 []) empty_fs))).

End examples.

(** * Properties *)

(** ** The runtime model on small inputs *)

Section runtime_examples.
Import Go.
#[local] Existing Instance examples.unicode.
#[local] Existing Instance examples.libraries.

Example FormatUint_zero : strconv_FormatUint 0 = "0".
Proof. reflexivity. Qed.

Example FormatUint_seven : strconv_FormatUint 7 = "7".
Proof. reflexivity. Qed.

Example FormatUint_max : strconv_FormatUint (uint64_mod - 1) = "18446744073709551615".
Proof. reflexivity. Qed.

Example incr_wraps : uint64_incr (uint64_mod - 1) = 0.
Proof. reflexivity. Qed.

Example getPath_seven : disk.getPath examples.store 7 = "zblock/miner1/7.json".
Proof. reflexivity. Qed.

Example ToLower_mixed : strings_ToLower "Tip_Advanced" = "tip_advanced".
Proof. reflexivity. Qed.

Example create_rdwr_is_66 : Z.lor os.O_CREATE os.O_RDWR = 66.
Proof. reflexivity. Qed.

(** Opened with [O_TRUNC] in addition, a file loses its content; the flags
    of [Write] do not have that bit. *)
Example OpenFile_with_O_TRUNC :
  os.previous
    (fst (os.OpenFile (examples.fs_with "zblock/miner1/1.json" "block:17;")
            "zblock/miner1/1.json"
            (Z.lor (Z.lor os.O_CREATE os.O_RDWR) os.O_TRUNC) 384))
    "zblock/miner1/1.json" = [].
Proof. vm_compute. reflexivity. Qed.

Example OpenFile_without_O_TRUNC :
  os.previous
    (fst (os.OpenFile (examples.fs_with "zblock/miner1/1.json" "block:17;")
            "zblock/miner1/1.json" (Z.lor os.O_CREATE os.O_RDWR) 384))
    "zblock/miner1/1.json" = list_byte_of_string "block:17;".
Proof. vm_compute. reflexivity. Qed.

End runtime_examples.

(** ** The file operations *)

Section os_facts.
Import Go.

Lemma create_rdwr_flags :
  Z.testbit (Z.lor os.O_CREATE os.O_RDWR) 6 = true
  /\ Z.testbit (Z.lor os.O_CREATE os.O_RDWR) 9 = false
  /\ os.wants_read (Z.lor os.O_CREATE os.O_RDWR) = true
  /\ os.wants_write (Z.lor os.O_CREATE os.O_RDWR) = true.
Proof. repeat split; reflexivity. Qed.

(** Opening for reading only never changes the file system, and fails
    with [ENOENT] exactly on a missing file. *)
Lemma OpenFile_rdonly_fs fs name perm :
  fst (os.OpenFile fs name os.O_RDONLY perm) = fs.
Proof.
  unfold os.OpenFile. destruct (os.files fs !! name) as [ino|]; simpl; [|done].
  destruct (os.owner_may_read ino); reflexivity.
Qed.

Lemma OpenFile_rdonly_missing fs name perm :
  os.files fs !! name = None ->
  os.OpenFile fs name os.O_RDONLY perm = (fs, inr (PathError "open" name ENOENT)).
Proof. intros Hnone. unfold os.OpenFile. rewrite Hnone. reflexivity. Qed.

Lemma OpenFile_rdonly_present fs name perm ino :
  os.files fs !! name = Some ino ->
  os.OpenFile fs name os.O_RDONLY perm =
    (fs, if os.owner_may_read ino
         then inl {| os.f_name := name; os.f_flag := os.O_RDONLY; os.f_offset := 0 |}
         else inr (PathError "open" name EACCES)).
Proof.
  intros Hsome. unfold os.OpenFile. rewrite Hsome. simpl.
  destruct (os.owner_may_read ino); reflexivity.
Qed.

(** Writing at offset zero with nothing kept before it. *)
Lemma overwrite_at_start (old b : bytes) :
  os.overwrite old 0 b = b ++ drop (length b) old.
Proof. unfold os.overwrite. simpl. reflexivity. Qed.

(** A write that reports no error has stored all of [b]. *)
Lemma File_Write_complete fs f b fs' f' n :
  os.File_Write fs f b = (fs', f', (n, None)) ->
  exists ino,
    os.files fs !! os.f_name f = Some ino
    /\ os.files fs' =
         <[os.f_name f := {| os.i_mode := os.i_mode ino;
                             os.i_data := os.overwrite (os.i_data ino) (os.f_offset f) b |}]>
           (os.files fs)
    /\ os.readonly fs' = os.readonly fs.
Proof.
  unfold os.File_Write. destruct (os.files fs !! os.f_name f) as [ino|]; [|done].
  destruct (negb (os.wants_write (os.f_flag f))); [done|].
  set (room := (length (os.i_data ino) - os.f_offset f)%nat).
  set (n0 := (length b `min` (room + os.free fs))%nat).
  destruct (n0 <? length b)%nat eqn:Hlt; [done|].
  intros [= <- <- <-]. exists ino. simpl.
  apply Nat.ltb_ge in Hlt.
  assert (n0 = length b) as -> by lia.
  by rewrite firstn_all.
Qed.

End os_facts.

(** ** The block store *)

Section disk_facts.
Import Go.
Context `{disk.Libraries}.

(** What [GetBlock] returns, by the state of the record file. *)
Lemma GetBlock_missing d num fs :
  os.files fs !! disk.getPath d num = None ->
  disk.GetBlock d num fs =
    (fs, (database.BlockData_zero,
          Some (PathError "open" (disk.getPath d num) ENOENT))).
Proof.
  intros Hnone. unfold disk.GetBlock.
  by rewrite (OpenFile_rdonly_missing _ _ _ Hnone).
Qed.

Lemma GetBlock_unreadable d num fs ino :
  os.files fs !! disk.getPath d num = Some ino ->
  os.owner_may_read ino = false ->
  disk.GetBlock d num fs =
    (fs, (database.BlockData_zero,
          Some (PathError "open" (disk.getPath d num) EACCES))).
Proof.
  intros Hsome Hmode. unfold disk.GetBlock.
  by rewrite (OpenFile_rdonly_present _ _ _ _ Hsome), Hmode.
Qed.

Lemma GetBlock_present d num fs ino :
  os.files fs !! disk.getPath d num = Some ino ->
  os.owner_may_read ino = true ->
  disk.GetBlock d num fs =
    (fs, match disk.json_Decoder_Decode (os.i_data ino) with
         | inl blockData => (blockData, None)
         | inr text => (database.BlockData_zero, Some (json_Error text))
         end).
Proof.
  intros Hsome Hmode. unfold disk.GetBlock.
  rewrite (OpenFile_rdonly_present _ _ _ _ Hsome), Hmode.
  unfold os.File_stream, os.File_Close. simpl. rewrite Hsome, drop_0.
  by destruct (disk.json_Decoder_Decode (os.i_data ino)).
Qed.

(** [GetBlock] leaves the file system as it found it. *)
Lemma GetBlock_fs d num fs : fst (disk.GetBlock d num fs) = fs.
Proof.
  destruct (os.files fs !! disk.getPath d num) as [ino|] eqn:Hfile.
  - destruct (os.owner_may_read ino) eqn:Hmode.
    + by rewrite (GetBlock_present _ _ _ _ Hfile Hmode).
    + by rewrite (GetBlock_unreadable _ _ _ _ Hfile Hmode).
  - by rewrite (GetBlock_missing _ _ _ Hfile).
Qed.

(** The error of [GetBlock] is the not-exist error exactly when the record
    file is missing. *)
Lemma GetBlock_not_exist_iff d num fs :
  errors_Is_ErrNotExist (snd (snd (disk.GetBlock d num fs))) = true
  <-> os.files fs !! disk.getPath d num = None.
Proof.
  destruct (os.files fs !! disk.getPath d num) as [ino|] eqn:Hfile.
  - split; [|done]. destruct (os.owner_may_read ino) eqn:Hmode.
    + rewrite (GetBlock_present _ _ _ _ Hfile Hmode).
      by destruct (disk.json_Decoder_Decode (os.i_data ino)).
    + by rewrite (GetBlock_unreadable _ _ _ _ Hfile Hmode).
  - by rewrite (GetBlock_missing _ _ _ Hfile).
Qed.

(** A [Write] that got past the encoder and reports no error leaves a
    readable record: the encoding, followed by what the previous record had
    beyond the length of the encoding. *)
Lemma Write_stored d b fs data fs' :
  disk.json_MarshalIndent b "" "  " = inl data ->
  disk.Write d b fs = (fs', None) ->
  exists ino,
    os.files fs' !! disk.getPath d (database.Number (database.Header b)) = Some ino
    /\ os.owner_may_read ino = true
    /\ os.i_data ino =
         data ++ drop (length data)
                   (os.previous fs (disk.getPath d (database.Number (database.Header b)))).
Proof.
  intros Henc. unfold disk.Write, os.previous. rewrite Henc.
  set (path := disk.getPath d (database.Number (database.Header b))).
  destruct (os.OpenFile fs path (Z.lor os.O_CREATE os.O_RDWR) 384)
    as [fs1 [f|err]] eqn:Hopen; [|done].
  destruct (os.File_Write fs1 f data) as [[fs2 f'] [n [err|]]] eqn:Hwrite; [done|].
  intros [= <-]. unfold os.File_Close.
  apply File_Write_complete in Hwrite as (ino1 & Hino1 & Hfiles & _).
  revert Hopen. unfold os.OpenFile.
  destruct create_rdwr_flags as (-> & -> & -> & ->).
  destruct (os.files fs !! path) as [ino|] eqn:Hfile; simpl.
  - destruct (os.readonly fs); [done|].
    destruct (os.owner_may_read ino) eqn:Hr; [|done].
    destruct (os.owner_may_write ino) eqn:Hw; [|done].
    simpl. intros [= <- <-]. simpl in *.
    rewrite Hfile in Hino1. injection Hino1 as <-.
    eexists. rewrite Hfiles, lookup_insert_eq. split; [reflexivity|].
    split; [exact Hr|]. simpl. apply overwrite_at_start.
  - destruct (os.readonly fs); [done|].
    intros [= <- <-]. simpl in *.
    rewrite lookup_insert_eq in Hino1. injection Hino1 as <-.
    eexists. rewrite Hfiles, lookup_insert_eq. split; [reflexivity|].
    split; [reflexivity|]. simpl. apply overwrite_at_start.
Qed.

(** A [Write] that reports no error either never got past the encoder, and
    then changed nothing, or stored the record. *)
Lemma Write_nil_cases d b fs fs' :
  disk.Write d b fs = (fs', None) ->
  (exists text, disk.json_MarshalIndent b "" "  " = inr text /\ fs' = fs)
  \/ (exists data ino,
        disk.json_MarshalIndent b "" "  " = inl data
        /\ os.files fs' !! disk.getPath d (database.Number (database.Header b)) = Some ino
        /\ os.i_data ino =
             data ++ drop (length data)
                       (os.previous fs (disk.getPath d (database.Number (database.Header b))))).
Proof.
  intros Hw. destruct (disk.json_MarshalIndent b "" "  ") as [data|text] eqn:Henc.
  - right. destruct (Write_stored _ _ _ _ _ Henc Hw) as (ino & Hino & _ & Hdata).
    by exists data, ino.
  - left. exists text. split; [done|].
    unfold disk.Write in Hw. rewrite Henc in Hw. by injection Hw.
Qed.

(** The two input-output failures of [Write] are reported: when the file
    cannot be opened, or not all bytes can be written, the error of the
    failed call is the result. *)
Lemma Write_reports_io_failure d b fs data :
  disk.json_MarshalIndent b "" "  " = inl data ->
  (forall fs1 err,
      os.OpenFile fs (disk.getPath d (database.Number (database.Header b)))
        (Z.lor os.O_CREATE os.O_RDWR) 384 = (fs1, inr err) ->
      disk.Write d b fs = (fs1, Some err))
  /\ (forall fs1 f fs2 f' n err,
        os.OpenFile fs (disk.getPath d (database.Number (database.Header b)))
          (Z.lor os.O_CREATE os.O_RDWR) 384 = (fs1, inl f) ->
        os.File_Write fs1 f data = (fs2, f', (n, Some err)) ->
        disk.Write d b fs = (fs2, Some err)).
Proof.
  intros Henc. split.
  - intros fs1 err Hopen. unfold disk.Write. by rewrite Henc, Hopen.
  - intros fs1 f fs2 f' n err Hopen Hwrite. unfold disk.Write.
    by rewrite Henc, Hopen, Hwrite.
Qed.

(** C1.  [Disk.Write] on a block that cannot be serialised: when the
    encoder returns an error, [Write] returns [nil], not an error, and has
    written nothing.  (The failures of the two file operations are
    returned, see [Write_reports_io_failure].) *)
Theorem disk_Write_swallows_encoder_error d b fs text :
  disk.json_MarshalIndent b "" "  " = inr text ->
  disk.Write d b fs = (fs, None).
Proof. intros Henc. unfold disk.Write. by rewrite Henc. Qed.

(** C2.  [Disk.Write] to a number that has a record.  The file is opened
    without truncation: over a record that is longer than the new
    encoding, a [Write] without error leaves the new encoding followed by
    the tail of the old record, which is not the new encoding. *)
Theorem disk_Write_keeps_tail_of_longer_record d b fs data ino fs' :
  disk.json_MarshalIndent b "" "  " = inl data ->
  os.files fs !! disk.getPath d (database.Number (database.Header b)) = Some ino ->
  (length data < length (os.i_data ino))%nat ->
  disk.Write d b fs = (fs', None) ->
  exists ino',
    os.files fs' !! disk.getPath d (database.Number (database.Header b)) = Some ino'
    /\ os.i_data ino' = data ++ drop (length data) (os.i_data ino)
    /\ os.i_data ino' <> data.
Proof.
  intros Henc Hold Hlen Hw.
  destruct (Write_stored _ _ _ _ _ Henc Hw) as (ino' & Hino' & _ & Hdata).
  unfold os.previous in Hdata. rewrite Hold in Hdata.
  exists ino'. repeat split; [done..|].
  rewrite Hdata. intros Heq. apply (f_equal length) in Heq.
  rewrite length_app, length_drop in Heq. lia.
Qed.


(** C4.  [Next] by cases.  Latched: the end-of-chain error, whatever the
    store holds, and nothing changes.  Not latched: the number goes up by
    one (modulo 2^64), the result is that of [GetBlock] at the new number,
    and the iterator latches exactly when the error of that lookup is the
    not-exist error, which is exactly when the record file is missing; the
    call after a latching one reports the end of the chain; an unreadable
    record and a record that does not decode are errors that do not
    latch. *)
Theorem disk_Next_by_cases di fs :
  (disk.endOfChain di = true ->
     forall fs0,
       disk.Next di fs0 =
         (di, fs0, (database.BlockData_zero, Some (errors_New "end of chain"))))
  /\ (disk.endOfChain di = false ->
      let n := uint64_incr (disk.currentBlockNumber di) in
      let r := snd (disk.GetBlock (disk.storage di) n fs) in
      let latched := errors_Is_ErrNotExist (snd r) in
      let di' := {| disk.storage := disk.storage di;
                    disk.currentBlockNumber := n;
                    disk.endOfChain := latched |} in
      disk.Next di fs = (di', fs, r)
      /\ (disk.currentBlockNumber di < uint64_mod - 1 ->
          0 <= disk.currentBlockNumber di ->
          n = disk.currentBlockNumber di + 1)
      /\ (latched = true <->
          os.files fs !! disk.getPath (disk.storage di) n = None)
      /\ (latched = true ->
          r = (database.BlockData_zero,
               Some (PathError "open" (disk.getPath (disk.storage di) n) ENOENT))
          /\ disk.Next di' fs =
               (di', fs, (database.BlockData_zero, Some (errors_New "end of chain"))))
      /\ (forall ino,
            os.files fs !! disk.getPath (disk.storage di) n = Some ino ->
            latched = false
            /\ (os.owner_may_read ino = false ->
                r = (database.BlockData_zero,
                     Some (PathError "open" (disk.getPath (disk.storage di) n) EACCES)))
            /\ (forall text,
                  os.owner_may_read ino = true ->
                  disk.json_Decoder_Decode (os.i_data ino) = inr text ->
                  r = (database.BlockData_zero, Some (json_Error text))))).
Proof.
  split.
  - intros Hdone fs0. unfold disk.Next. by rewrite Hdone.
  - intros Hlive n r latched di'.
    assert (Hnext : disk.Next di fs = (di', fs, r)).
    { unfold disk.Next. rewrite Hlive. simpl. fold n.
      pose proof (GetBlock_fs (disk.storage di) n fs) as Hfs.
      subst di' latched r.
      destruct (disk.GetBlock (disk.storage di) n fs) as [fs1 [blk err]].
      simpl in *. subst fs1. by destruct (errors_Is_ErrNotExist err). }
    assert (Hiff : latched = true <->
                   os.files fs !! disk.getPath (disk.storage di) n = None)
      by apply GetBlock_not_exist_iff.
    split; [exact Hnext|]. split.
    { intros Hmax Hmin. subst n. unfold uint64_incr, uint64_mod in *.
      apply Z.mod_small. lia. }
    split; [exact Hiff|]. split.
    + intros Hl. split.
      * subst r. by rewrite (GetBlock_missing _ _ _ (proj1 Hiff Hl)).
      * unfold disk.Next. subst di'. simpl. by rewrite Hl.
    + intros ino Hino. split.
      * destruct latched; [|done]. rewrite (proj1 Hiff eq_refl) in Hino. done.
      * split.
        -- intros Hmode. subst r. by rewrite (GetBlock_unreadable _ _ _ _ Hino Hmode).
        -- intros text Hmode Hdec. subst r.
           by rewrite (GetBlock_present _ _ _ _ Hino Hmode), Hdec.
Qed.

(** Calls of [Next] compose. *)
Lemma Next_times_add n m di fs :
  disk.Next_times (n + m) di fs =
    let '(di1, fs1, rs1) := disk.Next_times n di fs in
    let '(di2, fs2, rs2) := disk.Next_times m di1 fs1 in
    (di2, fs2, rs1 ++ rs2).
Proof.
  revert di fs. induction n as [|n IH]; intros di fs; simpl.
  - by destruct (disk.Next_times m di fs) as [[di2 fs2] rs2].
  - destruct (disk.Next di fs) as [[di1 fs1] r].
    rewrite IH.
    destruct (disk.Next_times n di1 fs1) as [[di2 fs2] rs2].
    by destruct (disk.Next_times m di2 fs2) as [[di3 fs3] rs3].
Qed.

(** One call on a store that holds the chain [bs], before the end. *)
Lemma Next_inside_chain d fs bs (j : nat) b :
  disk.holds_chain d fs bs ->
  bs !! j = Some b ->
  disk.Next {| disk.storage := d; disk.currentBlockNumber := Z.of_nat j;
               disk.endOfChain := false |} fs =
    ({| disk.storage := d; disk.currentBlockNumber := Z.of_nat (Datatypes.S j);
        disk.endOfChain := false |}, fs, (b, None)).
Proof.
  intros (Hlen & Hrec & _) Hj.
  destruct (Hrec j b Hj) as (_ & ino & Hino & Hmode & Hdec).
  pose proof (lookup_lt_Some _ _ _ Hj) as Hlt.
  assert (Hincr : uint64_incr (Z.of_nat j) = Z.of_nat (Datatypes.S j)).
  { unfold uint64_incr. rewrite Z.mod_small; lia. }
  unfold disk.Next. simpl. rewrite Hincr.
  replace (Z.of_nat (Datatypes.S j)) with (Z.of_nat j + 1) by lia.
  by rewrite (GetBlock_present _ _ _ _ Hino Hmode), Hdec.
Qed.

(** [k] calls from position [j] return the next [k] blocks. *)
Lemma Next_times_inside_chain d fs bs (k j : nat) :
  disk.holds_chain d fs bs ->
  (j + k <= length bs)%nat ->
  disk.Next_times k
    {| disk.storage := d; disk.currentBlockNumber := Z.of_nat j;
       disk.endOfChain := false |} fs =
    ({| disk.storage := d; disk.currentBlockNumber := Z.of_nat (j + k);
        disk.endOfChain := false |}, fs,
     (fun b => (b, None)) <$> take k (drop j bs)).
Proof.
  intros Hchain. revert j. induction k as [|k IH]; intros j Hle.
  - simpl. by rewrite Nat.add_0_r.
  - destruct (lookup_lt_is_Some_2 bs j) as [b Hb]; [lia|].
    simpl. rewrite (Next_inside_chain _ _ _ _ _ Hchain Hb).
    rewrite (IH (Datatypes.S j)) by lia.
    replace (Datatypes.S j + k)%nat with (j + Datatypes.S k)%nat by lia.
    rewrite (drop_S _ _ _ Hb). reflexivity.
Qed.


End disk_facts.

(** ** The block store on the example environment *)

Section disk_examples.
Import Go.
#[local] Existing Instance examples.libraries.

(** The line format reads a record back from the front of any stream. *)
Lemma decode_line_front rest :
  examples.decode_line (list_byte_of_string "block:1;" ++ rest)
    = inl (examples.block 1 []).
Proof. reflexivity. Qed.

Lemma disk_Write_swallows_encoder_error_witness :
  disk.Write examples.store (examples.block 1 [examples.blocktx 1 5])
    examples.empty_fs = (examples.empty_fs, None).
Proof.
  apply (disk_Write_swallows_encoder_error examples.store
           (examples.block 1 [examples.blocktx 1 5]) examples.empty_fs
           "transactions are not covered by the line format").
  reflexivity.
Defined.

(** Block one written over a longer record. *)
Lemma Write_over_longer_record_runs :
  snd (disk.Write examples.store (examples.block 1 [])
         (examples.fs_with "zblock/miner1/1.json" "block:17;")) = None.
Proof. vm_compute. reflexivity. Qed.

Lemma disk_Write_keeps_tail_of_longer_record_witness :
  exists ino',
    os.files (fst (disk.Write examples.store (examples.block 1 [])
                     (examples.fs_with "zblock/miner1/1.json" "block:17;")))
      !! "zblock/miner1/1.json" = Some ino'
    /\ os.i_data ino' = list_byte_of_string "block:1;;"
    /\ os.i_data ino' <> list_byte_of_string "block:1;".
Proof.
  assert (Hw : disk.Write examples.store (examples.block 1 [])
                 (examples.fs_with "zblock/miner1/1.json" "block:17;")
               = (fst (disk.Write examples.store (examples.block 1 [])
                         (examples.fs_with "zblock/miner1/1.json" "block:17;")),
                  None)).
  { rewrite (surjective_pairing (disk.Write _ _ _)).
    by rewrite Write_over_longer_record_runs. }
  exact (disk_Write_keeps_tail_of_longer_record examples.store
           (examples.block 1 [])
           (examples.fs_with "zblock/miner1/1.json" "block:17;")
           (list_byte_of_string "block:1;")
           {| os.i_mode := 384; os.i_data := list_byte_of_string "block:17;" |}
           _ eq_refl eq_refl (le_n 9) Hw).
Defined.


Lemma disk_Next_by_cases_witness :
  disk.Next (disk.ForEach examples.store) examples.empty_fs =
    ({| disk.storage := examples.store; disk.currentBlockNumber := 1;
        disk.endOfChain := true |}, examples.empty_fs,
     (database.BlockData_zero,
      Some (PathError "open" "zblock/miner1/1.json" ENOENT)))
  /\ disk.Next {| disk.storage := examples.store; disk.currentBlockNumber := 1;
                  disk.endOfChain := true |} examples.empty_fs =
       ({| disk.storage := examples.store; disk.currentBlockNumber := 1;
           disk.endOfChain := true |}, examples.empty_fs,
        (database.BlockData_zero, Some (errors_New "end of chain"))).
Proof.
  destruct (disk_Next_by_cases (disk.ForEach examples.store) examples.empty_fs)
    as [_ Hlive].
  destruct (Hlive eq_refl) as (Hnext & _ & _ & _ & _).
  split; [exact Hnext|].
  destruct (disk_Next_by_cases
              {| disk.storage := examples.store; disk.currentBlockNumber := 1;
                 disk.endOfChain := true |} examples.empty_fs) as [Hdone _].
  exact (Hdone eq_refl examples.empty_fs).
Defined.

(** The example store with two blocks holds the chain of these blocks. *)
Lemma two_blocks_fs_holds_chain :
  disk.holds_chain examples.store examples.two_blocks_fs
    [examples.block 1 []; examples.block 2 []].
Proof.
  split; [reflexivity|]. split.
  - intros [|[|k]] b Hb; simpl in Hb; [| |done]; injection Hb as <-.
    + split; [reflexivity|].
      exists {| os.i_mode := 384; os.i_data := list_byte_of_string "block:1;" |}.
      split; [vm_compute; reflexivity|]. split; reflexivity.
    + split; [reflexivity|].
      exists {| os.i_mode := 384; os.i_data := list_byte_of_string "block:2;" |}.
      split; [vm_compute; reflexivity|]. split; reflexivity.
  - vm_compute. reflexivity.
Qed.



End disk_examples.

(** ** The transaction model *)

Section database_facts.
Import Go.
Context `{database.Accounts} `{database.Signing}.

Lemma first_failure_app checks checks' :
  database.first_failure (checks ++ checks') =
    match database.first_failure checks with
    | Some err => Some err
    | None => database.first_failure checks'
    end.
Proof.
  induction checks as [|[[|] err] checks IH]; simpl; [done|exact IH|done].
Qed.

Lemma first_failure_None checks :
  database.first_failure checks = None <-> database.all_pass checks = true.
Proof.
  unfold database.all_pass.
  induction checks as [|[[|] err] checks IH]; simpl; [done|exact IH|done].
Qed.

(** [Validate] is the first failure of its checks, the recovery of the
    address being one of them. *)
Lemma Validate_first_failure tx chainID :
  database.Validate tx chainID =
    database.first_failure (database.checks_with_recovery tx chainID).
Proof.
  unfold database.Validate, database.checks_with_recovery,
    database.admission_checks, database.recovery_check, database.signer_check.
  simpl.
  destruct (database.ChainID (database.SignedTx_Tx tx) =? chainID); simpl; [|done].
  destruct (database.IsAccountID (database.FromID (database.SignedTx_Tx tx)));
    simpl; [|done].
  destruct (database.IsAccountID (database.ToID (database.SignedTx_Tx tx)));
    simpl; [|done].
  destruct (String.eqb (database.FromID (database.SignedTx_Tx tx))
              (database.ToID (database.SignedTx_Tx tx))); simpl; [done|].
  destruct (database.signature_VerifySignature _ _ _) as [err|]; simpl; [done|].
  destruct (database.signature_FromAddress _ _ _ _) as [address [err|]];
    simpl; [done|].
  by destruct (String.eqb address _).
Qed.

(** C6.  [Validate] returns the error of the first check that fails, in
    the order: chain id, sender account, receiver account, self payment,
    signature values, recovery of the signer's address, signer is sender;
    it returns [nil] exactly when all of them pass.  When the recovery
    returns no error these are the six checks of the spec; when the first
    five pass and the recovery returns an error, that error is the
    result.  As a function of the transaction and the chain id it has a
    result on every input and changes nothing. *)
Theorem database_Validate_checks_in_order tx chainID :
  database.Validate tx chainID =
    database.first_failure (database.checks_with_recovery tx chainID)
  /\ (database.Validate tx chainID = None <->
      database.all_pass (database.checks_with_recovery tx chainID) = true)
  /\ (snd (database.signature_FromAddress (database.SignedTx_Tx tx)
             (database.V tx) (database.R tx) (database.S tx)) = None ->
      database.Validate tx chainID =
        database.first_failure (database.six_checks tx chainID))
  /\ (forall err,
        database.all_pass (database.admission_checks tx chainID) = true ->
        snd (database.signature_FromAddress (database.SignedTx_Tx tx)
               (database.V tx) (database.R tx) (database.S tx)) = Some err ->
        database.Validate tx chainID = Some err).
Proof.
  split; [apply Validate_first_failure|]. split.
  { rewrite Validate_first_failure. apply first_failure_None. }
  split.
  - intros Hrec. rewrite Validate_first_failure.
    unfold database.checks_with_recovery, database.six_checks.
    rewrite !first_failure_app.
    destruct (database.first_failure (database.admission_checks tx chainID));
      [done|].
    unfold database.recovery_check. by rewrite Hrec.
  - intros err Hpass Hrec. rewrite Validate_first_failure.
    unfold database.checks_with_recovery. rewrite first_failure_app.
    apply first_failure_None in Hpass. rewrite Hpass.
    unfold database.recovery_check. by rewrite Hrec.
Qed.

(** C7.  A signed transaction whose sender and receiver are one and the
    same well-formed account is rejected by [Validate], called with the
    chain id of the transaction, with the self-payment error; [NewTx] on
    the fields of the transaction returns it without error, and [Sign]
    returns the signed transaction whenever the signer returns its
    signature values. *)
Theorem database_self_payment_rejected_by_Validate_only tx :
  database.FromID (database.SignedTx_Tx tx) = database.ToID (database.SignedTx_Tx tx) ->
  database.IsAccountID (database.FromID (database.SignedTx_Tx tx)) = true ->
  let t := database.SignedTx_Tx tx in
  database.Validate tx (database.ChainID t) =
    Some (fmt_Errorf
            "transaction invalid, sending money to yourself, from %s, to %s"
            [argString (database.FromID t); argString (database.ToID t)])
  /\ database.NewTx (database.ChainID t) (database.Nonce t) (database.FromID t)
       (database.ToID t) (database.Value t) (database.Tip t) (database.Data t)
     = (t, None)
  /\ (forall key,
        database.signature_Sign t key =
          (database.V tx, database.R tx, database.S tx, None) ->
        database.Sign t key = (tx, None)).
Proof.
  intros Hself Hfrom t. subst t. split; [|split].
  - unfold database.Validate. rewrite Z.eqb_refl. simpl.
    rewrite <- Hself, Hfrom. simpl. by rewrite String.eqb_refl.
  - assert (Hto : database.IsAccountID (database.ToID (database.SignedTx_Tx tx))
                  = true) by (by rewrite <- Hself).
    unfold database.NewTx. rewrite Hfrom, Hto. simpl.
    by destruct (database.SignedTx_Tx tx).
  - intros key Hsign. unfold database.Sign. rewrite Hsign. by destruct tx.
Qed.

End database_facts.

(** ** The transaction model on the example environment *)

Section database_examples.
Import Go.
#[local] Existing Instance examples.accounts.
#[local] Existing Instance examples.signing.

Lemma database_Validate_checks_in_order_witness :
  database.Validate examples.unrecoverable 1
    = Some (errors_New "invalid signature recovery id")
  /\ database.Validate examples.self_payment 1
     = database.first_failure (database.six_checks examples.self_payment 1).
Proof.
  split.
  - destruct (database_Validate_checks_in_order examples.unrecoverable 1)
      as (_ & _ & _ & Hrec).
    apply (Hrec (errors_New "invalid signature recovery id")).
    + vm_compute. reflexivity.
    + reflexivity.
  - destruct (database_Validate_checks_in_order examples.self_payment 1)
      as (_ & _ & Hsix & _).
    apply Hsix. reflexivity.
Defined.

(** C6, as stated, at a transaction whose signature values are accepted
    and from which no address is recovered: the six checks give the
    signer-mismatch error, [Validate] gives the error of the recovery. *)
Lemma database_Validate_recovery_error_is_not_signer_mismatch :
  database.first_failure (database.six_checks examples.unrecoverable 1)
    = Some (errors_New "signature address doesn't match from address")
  /\ database.Validate examples.unrecoverable 1
     = Some (errors_New "invalid signature recovery id")
  /\ database.Validate examples.unrecoverable 1
     <> database.first_failure (database.six_checks examples.unrecoverable 1).
Proof.
  assert (Hcode : database.Validate examples.unrecoverable 1
                  = Some (errors_New "invalid signature recovery id"))
    by (vm_compute; reflexivity).
  assert (Hspec : database.first_failure
                    (database.six_checks examples.unrecoverable 1)
                  = Some (errors_New "signature address doesn't match from address"))
    by (vm_compute; reflexivity).
  split; [exact Hspec|]. split; [exact Hcode|].
  rewrite Hcode, Hspec. discriminate.
Qed.

Lemma database_self_payment_rejected_by_Validate_only_witness :
  database.Validate examples.self_payment 1 =
    Some (fmt_Errorf
            "transaction invalid, sending money to yourself, from %s, to %s"
            [argString examples.kennedy; argString examples.kennedy])
  /\ database.NewTx 1 7 examples.kennedy examples.kennedy 100 5 []
     = (examples.tx_of 1 7 examples.kennedy examples.kennedy 5, None)
  /\ database.Sign (examples.tx_of 1 7 examples.kennedy examples.kennedy 5)
       examples.kennedy
     = (examples.self_payment, None).
Proof.
  assert (Hacc : database.IsAccountID
                   (database.FromID (database.SignedTx_Tx examples.self_payment))
                 = true) by (vm_compute; reflexivity).
  destruct (database_self_payment_rejected_by_Validate_only examples.self_payment
              eq_refl Hacc) as (Hvalidate & Hnew & Hsign).
  split; [exact Hvalidate|]. split; [exact Hnew|].
  apply (Hsign examples.kennedy). reflexivity.
Defined.

(** C7, as stated, at a self payment on chain one validated for chain
    two: sender and receiver are the same well-formed account, [NewTx]
    returned the transaction, and [Validate] fails with the chain-id
    error, not with the self-payment error. *)
Lemma database_self_payment_on_other_chain :
  database.FromID (database.SignedTx_Tx examples.self_payment)
    = database.ToID (database.SignedTx_Tx examples.self_payment)
  /\ database.IsAccountID (database.FromID (database.SignedTx_Tx examples.self_payment))
     = true
  /\ database.NewTx 1 7 examples.kennedy examples.kennedy 100 5 []
     = (database.SignedTx_Tx examples.self_payment, None)
  /\ database.Sign (database.SignedTx_Tx examples.self_payment) examples.kennedy
     = (examples.self_payment, None)
  /\ database.Validate examples.self_payment 2
     = Some (fmt_Errorf "invalid chain id, got[%d] exp[%d]" [argInt 1; argInt 2])
  /\ database.Validate examples.self_payment 2
     <> Some (fmt_Errorf
                "transaction invalid, sending money to yourself, from %s, to %s"
                [argString examples.kennedy; argString examples.kennedy]).
Proof.
  assert (Hcode : database.Validate examples.self_payment 2
                  = Some (fmt_Errorf "invalid chain id, got[%d] exp[%d]"
                            [argInt 1; argInt 2]))
    by (vm_compute; reflexivity).
  split; [reflexivity|]. split; [vm_compute; reflexivity|].
  split; [vm_compute; reflexivity|]. split; [vm_compute; reflexivity|].
  split; [exact Hcode|].
  rewrite Hcode. discriminate.
Qed.

End database_examples.

(** ** The strategy registry and the orderings *)

Section selector_facts.
Import Go.
Context `{Unicode} `{selector.Selectors}.

(** [Retrieve] looks the lower-cased name up and leaves the registry as it
    is. *)
Lemma Retrieve_lookup strategy (registry : gmap string selector.Func) :
  selector.Retrieve strategy registry =
    (registry,
     match registry !! strings_ToLower strategy with
     | Some fn => (Some fn, None)
     | None =>
         (None, Some (fmt_Errorf "strategy %q does not exist" [argString strategy]))
     end).
Proof.
  unfold selector.Retrieve. by destruct (registry !! strings_ToLower strategy).
Qed.

Lemma strategies_lookup (name : string) :
  selector.strategies !! name =
    if decide (name = "tip") then Some selector.tipSelect else None.
Proof.
  unfold selector.strategies, selector.StrategyTip.
  destruct (decide (name = "tip")) as [->|Hne].
  - apply lookup_singleton_eq.
  - by apply lookup_singleton_ne.
Qed.

(** On an all-ASCII name [strings.ToLower] does not consult the Unicode
    tables. *)
Lemma strings_ToLower_ASCII s :
  allASCII s = true -> strings_ToLower s = mapASCII lowerASCII s.
Proof. intros Hs. unfold strings_ToLower. by rewrite Hs. Qed.

(** C8.  [byTip.Swap] panics with "implement me" on every list and every
    pair of indices; so the run of a sorter on a [byTip] list that comes to
    a call of [Swap] ends in that panic, and a run that returns has called
    no [Swap] and returns the list as it was. *)
Theorem selector_byTip_Swap_panics :
  (forall (b : selector.byTip) (i j : Z),
      selector.Swap b i j = Panics (panic_value "implement me"))
  /\ (forall (p : selector.sorter) (b : selector.byTip),
        selector.reaches_Swap b p ->
        selector.run p b = Panics (panic_value "implement me"))
  /\ (forall (p : selector.sorter) (b b' : selector.byTip),
        selector.run p b = Returns b' ->
        b' = b /\ ~ selector.reaches_Swap b p).
Proof.
  split; [reflexivity|]. split.
  - intros p b Hreach. induction Hreach as [i j k|k _ IH|i j k c Hless _ IH]; simpl.
    + reflexivity.
    + exact IH.
    + simpl in Hless. by rewrite Hless.
  - intros p b. induction p as [|k IH|i j k IH|i j k IH]; simpl; intros b' Hrun.
    + injection Hrun as <-. split; [done|]. intros Hreach. inversion Hreach.
    + destruct (IH _ _ Hrun) as [-> Hno]. split; [done|].
      intros Hreach. inversion Hreach; subst. by apply Hno.
    + destruct (selector.byTip_Less b i j) as [c|e] eqn:Hless; [|done].
      destruct (IH _ _ Hrun) as [-> Hno]. split; [done|].
      intros Hreach. inversion Hreach as [| |i' j' k' c' Hless' Hreach']; subst.
      simpl in Hless'. rewrite Hless in Hless'. injection Hless' as <-.
      by apply Hno.
    + done.
Qed.

(** C9.  The name is looked up by its lower-case form: a name whose
    lower-case form is "tip" gets the tip selection function and no error,
    among them "tip", "TIP" and "Tip"; a name whose lower-case form is not
    in the registry gets no function and the error that names it; the
    registry is the same after the call. *)
Theorem selector_Retrieve_ignores_case strategy :
  (strings_ToLower strategy = "tip" ->
     selector.Retrieve strategy selector.strategies =
       (selector.strategies, (Some selector.tipSelect, None)))
  /\ (strings_ToLower strategy ∉ dom selector.strategies ->
      selector.Retrieve strategy selector.strategies =
        (selector.strategies,
         (None,
          Some (fmt_Errorf "strategy %q does not exist" [argString strategy]))))
  /\ fst (selector.Retrieve strategy selector.strategies) = selector.strategies
  /\ (strategy = "tip" \/ strategy = "TIP" \/ strategy = "Tip" ->
      strings_ToLower strategy = "tip").
Proof.
  split; [|split; [|split]].
  - intros Hlow. rewrite Retrieve_lookup, Hlow, strategies_lookup. done.
  - intros Hout. rewrite Retrieve_lookup.
    apply not_elem_of_dom in Hout. by rewrite Hout.
  - by rewrite Retrieve_lookup.
  - intros [-> | [-> | ->]]; by rewrite strings_ToLower_ASCII.
Qed.

(** C10.  The registry has the one entry "tip".  The constant
    [StrategyTipAdvanced] is "tip_advanced", nothing is registered under
    it, and every name whose lower-case form is "tip_advanced", the
    constant itself among them, gets no function and the error that names
    it. *)
Theorem selector_tip_advanced_is_not_registered :
  dom selector.strategies = {[ "tip" ]}
  /\ selector.StrategyTipAdvanced = "tip_advanced"
  /\ selector.strategies !! selector.StrategyTipAdvanced = None
  /\ (forall strategy,
        strings_ToLower strategy = "tip_advanced" ->
        selector.Retrieve strategy selector.strategies =
          (selector.strategies,
           (None,
            Some (fmt_Errorf "strategy %q does not exist" [argString strategy]))))
  /\ strings_ToLower selector.StrategyTipAdvanced = "tip_advanced".
Proof.
  split; [|split; [|split; [|split]]].
  - unfold selector.strategies, selector.StrategyTip. apply dom_singleton_L.
  - reflexivity.
  - by rewrite strategies_lookup.
  - intros strategy Hlow. by rewrite Retrieve_lookup, Hlow, strategies_lookup.
  - by rewrite strings_ToLower_ASCII.
Qed.

End selector_facts.

(** ** The registry and the orderings on the example environment *)

Section selector_examples.
Import Go.
#[local] Existing Instance examples.unicode.
#[local] Existing Instance examples.selectors.

(** Two transactions in ascending order of tip: the insertion sort has to
    exchange them to bring the higher tip first. *)
Lemma insertionSort_reaches_Swap :
  selector.reaches_Swap
    (selector.ByTip [examples.blocktx 1 1; examples.blocktx 2 5])
    selector.insertionSort.
Proof.
  apply selector.reaches_after_Len. simpl.
  by apply (selector.reaches_after_Less _ 1 0 _ true); [|apply selector.reaches_here].
Qed.

Lemma selector_byTip_Swap_panics_witness :
  selector.run selector.insertionSort
    (selector.ByTip [examples.blocktx 1 1; examples.blocktx 2 5])
  = Panics (panic_value "implement me").
Proof.
  destruct selector_byTip_Swap_panics as (_ & Hrun & _).
  exact (Hrun _ _ insertionSort_reaches_Swap).
Defined.

(** The same sort by nonce, whose [Swap] is implemented, orders the list. *)
Example insertionSort_byNonce :
  selector.run selector.insertionSort
    (selector.ByNonce [examples.blocktx 2 5; examples.blocktx 1 1])
  = Returns (selector.ByNonce [examples.blocktx 1 1; examples.blocktx 2 5]).
Proof. reflexivity. Qed.

(** A list already in descending order of tip needs no exchange. *)
Example insertionSort_byTip_ordered :
  selector.run selector.insertionSort
    (selector.ByTip [examples.blocktx 2 5; examples.blocktx 1 1])
  = Returns (selector.ByTip [examples.blocktx 2 5; examples.blocktx 1 1]).
Proof. reflexivity. Qed.

Lemma selector_Retrieve_ignores_case_witness :
  selector.Retrieve "TIP" selector.strategies =
    (selector.strategies, (Some selector.tipSelect, None))
  /\ selector.Retrieve "fifo" selector.strategies =
       (selector.strategies,
        (None, Some (fmt_Errorf "strategy %q does not exist" [argString "fifo"]))).
Proof.
  split.
  - destruct (selector_Retrieve_ignores_case "TIP") as (Htip & _).
    apply Htip. reflexivity.
  - destruct (selector_Retrieve_ignores_case "fifo") as (_ & Hnone & _).
    apply Hnone. unfold selector.strategies, selector.StrategyTip.
    rewrite dom_singleton_L. apply not_elem_of_singleton. discriminate.
Defined.

Lemma selector_tip_advanced_is_not_registered_witness :
  selector.Retrieve "Tip_Advanced" selector.strategies =
    (selector.strategies,
     (None,
      Some (fmt_Errorf "strategy %q does not exist" [argString "Tip_Advanced"]))).
Proof.
  destruct selector_tip_advanced_is_not_registered as (_ & _ & _ & Hvariant & _).
  apply Hvariant. reflexivity.
Defined.

End selector_examples.

(** * Further properties *)

(** ** Decimal numerals *)

Section decimal_facts.
Import Go.

Lemma digit_cases (u : Z) (P : Z -> Prop) :
  0 <= u < 10 ->
  P 0 -> P 1 -> P 2 -> P 3 -> P 4 -> P 5 -> P 6 -> P 7 -> P 8 -> P 9 -> P u.
Proof.
  intros Hu. assert (u = 0 \/ u = 1 \/ u = 2 \/ u = 3 \/ u = 4 \/ u = 5
                     \/ u = 6 \/ u = 7 \/ u = 8 \/ u = 9) as Hcases by lia.
  intros. repeat (destruct Hcases as [->|Hcases]; [assumption|]).
  by subst.
Qed.

Lemma digit_is_digit u : 0 <= u < 10 -> isDecimalDigit (digit u) = true.
Proof. intros Hu. by apply (digit_cases u (fun u => isDecimalDigit (digit u) = true)). Qed.

Lemma digit_value u :
  0 <= u < 10 -> Z.of_nat (nat_of_ascii (digit u) - 48) = u.
Proof.
  intros Hu.
  by apply (digit_cases u (fun u => Z.of_nat (nat_of_ascii (digit u) - 48) = u)).
Qed.

(** The digits that [formatBits] puts in front of [acc] read back as [u]. *)
Lemma formatBits_value fuel u acc a :
  0 <= u < 10 ^ (Z.of_nat fuel + 1) ->
  exists k, 0 <= k
    /\ decimal_value a (formatBits fuel u acc) = decimal_value (a * 10 ^ k + u) acc.
Proof.
  revert u acc a. induction fuel as [|fuel IH]; intros u acc a Hu.
  - exists 1. split; [lia|]. cbn [formatBits decimal_value].
    change (Z.of_nat 0 + 1) with 1 in Hu.
    rewrite Z.mod_small by lia. rewrite digit_value by lia.
    f_equal. lia.
  - cbn [formatBits]. destruct (10 <=? u) eqn:Hbig.
    + apply Z.leb_le in Hbig.
      assert (Hdiv : 0 <= u / 10 < 10 ^ (Z.of_nat fuel + 1)).
      { split; [apply Z.div_pos; lia|].
        apply Z.div_lt_upper_bound; [lia|].
        replace (Z.of_nat (Datatypes.S fuel) + 1) with (Z.of_nat fuel + 1 + 1) in Hu by lia.
        rewrite Z.pow_add_r in Hu by lia. lia. }
      destruct (IH (u / 10) (String (digit (u mod 10)) acc) a Hdiv) as (k & Hk & Heq).
      exists (k + 1). split; [lia|]. rewrite Heq. cbn [decimal_value].
      rewrite digit_value by (apply Z.mod_pos_bound; lia).
      f_equal. rewrite Z.pow_add_r by lia.
      pose proof (Z.div_mod u 10). lia.
    + apply Z.leb_gt in Hbig. exists 1. split; [lia|]. cbn [decimal_value].
      rewrite digit_value by lia. f_equal. lia.
Qed.

Lemma formatBits_digits fuel u acc :
  0 <= u -> all_digits acc = true -> all_digits (formatBits fuel u acc) = true.
Proof.
  revert u acc. induction fuel as [|fuel IH]; intros u acc Hu Hacc;
    cbn [formatBits].
  - cbn [all_digits].
    rewrite digit_is_digit by (apply Z.mod_pos_bound; lia). exact Hacc.
  - destruct (10 <=? u) eqn:Hbig.
    + apply IH; [apply Z.div_pos; lia|]. cbn [all_digits].
      rewrite digit_is_digit by (apply Z.mod_pos_bound; lia). exact Hacc.
    + apply Z.leb_gt in Hbig. cbn [all_digits].
      rewrite digit_is_digit by lia. exact Hacc.
Qed.

Lemma FormatUint_value u :
  0 <= u < uint64_mod -> decimal_value 0 (strconv_FormatUint u) = u.
Proof.
  intros Hu. unfold strconv_FormatUint.
  destruct (formatBits_value 20 u "" 0) as (k & _ & Heq).
  - unfold uint64_mod in Hu. change (Z.of_nat 20 + 1) with 21.
    assert (2 ^ 64 < 10 ^ 21) by reflexivity. lia.
  - rewrite Heq. cbn [decimal_value]. by rewrite Z.mul_0_l.
Qed.

Lemma FormatUint_inj u v :
  0 <= u < uint64_mod -> 0 <= v < uint64_mod ->
  strconv_FormatUint u = strconv_FormatUint v -> u = v.
Proof.
  intros Hu Hv Heq.
  rewrite <- (FormatUint_value u Hu), <- (FormatUint_value v Hv). by rewrite Heq.
Qed.

Lemma FormatUint_digits u : 0 <= u -> all_digits (strconv_FormatUint u) = true.
Proof. intros Hu. by apply formatBits_digits. Qed.

(** Strings: what is needed of [++]. *)
Lemma string_app_length (s t : string) :
  String.length (s ++ t)%string = (String.length s + String.length t)%nat.
Proof. induction s as [|c s IH]; simpl; [done|by rewrite IH]. Qed.

Lemma string_app_inj_r (s1 s2 t : string) :
  (s1 ++ t)%string = (s2 ++ t)%string -> s1 = s2.
Proof.
  revert s2. induction s1 as [|c s1 IH]; intros [|c' s2] Heq.
  - done.
  - apply (f_equal String.length) in Heq.
    rewrite (string_app_length (String c' s2) t) in Heq.
    change (String.length t = S (String.length s2 + String.length t)) in Heq.
    lia.
  - apply (f_equal String.length) in Heq.
    rewrite (string_app_length (String c s1) t) in Heq.
    change (S (String.length s1 + String.length t) = String.length t) in Heq.
    lia.
  - change (String c (s1 ++ t) = String c' (s2 ++ t))%string in Heq.
    injection Heq as -> Heq. f_equal. by apply IH.
Qed.

Lemma string_app_cons (c : ascii) (s t : string) :
  (String c s ++ t)%string = String c (s ++ t)%string.
Proof. reflexivity. Qed.

Lemma string_app_nil (t : string) : ("" ++ t)%string = t.
Proof. reflexivity. Qed.

(** A string that ends in a colon and digits is cut in one way only. *)
Lemma colon_digits_split (s1 s2 d1 d2 : string) :
  all_digits d1 = true -> all_digits d2 = true ->
  (s1 ++ ":" ++ d1)%string = (s2 ++ ":" ++ d2)%string ->
  s1 = s2 /\ d1 = d2.
Proof.
  intros Hd1 Hd2.
  assert (Hnone : forall (s d : string), all_digits (s ++ String ":" d)%string = false).
  { intros s d. induction s as [|c s IH].
    - reflexivity.
    - rewrite string_app_cons. cbn [all_digits]. rewrite IH.
      by destruct (isDecimalDigit c). }
  revert s2. induction s1 as [|c s1 IH]; intros [|c' s2] Heq;
    rewrite ?string_app_cons, ?string_app_nil in Heq.
  - by injection Heq as ->.
  - injection Heq as <- ->. by rewrite Hnone in Hd1.
  - injection Heq as -> <-. by rewrite Hnone in Hd2.
  - injection Heq as -> Heq. destruct (IH _ Heq) as [-> ->]. done.
Qed.

End decimal_facts.

(** ** More on the transaction model *)

Section database_more.
Import Go.
Context `{database.Accounts} `{database.Signing}.

(** X1.  A transfer between two different well-formed accounts, built by
    [NewTx] and signed by [Sign], is accepted by [Validate] for the chain
    id it was built with, whenever the signer returns signature values
    that the signature package accepts and from which it recovers the
    sender. *)
Theorem database_signed_transfer_is_valid
    chainID nonce fromID toID value tip data key v r s :
  let tx := {| database.ChainID := chainID; database.Nonce := nonce;
               database.FromID := fromID; database.ToID := toID;
               database.Value := value; database.Tip := tip;
               database.Data := data |} in
  database.IsAccountID fromID = true ->
  database.IsAccountID toID = true ->
  fromID <> toID ->
  database.signature_Sign tx key = (v, r, s, None) ->
  database.signature_VerifySignature v r s = None ->
  database.signature_FromAddress tx v r s = (fromID, None) ->
  exists stx,
    database.NewTx chainID nonce fromID toID value tip data = (tx, None)
    /\ database.Sign tx key = (stx, None)
    /\ database.SignedTx_Tx stx = tx
    /\ database.Validate stx chainID = None.
Proof.
  intros tx Hfrom Hto Hne Hsign Hverify Hrecover.
  exists {| database.SignedTx_Tx := tx; database.V := v; database.R := r;
            database.S := s |}.
  split; [|split; [|split]].
  - unfold database.NewTx. by rewrite Hfrom, Hto.
  - unfold database.Sign. by rewrite Hsign.
  - reflexivity.
  - unfold database.Validate. simpl. rewrite Z.eqb_refl, Hfrom, Hto. simpl.
    apply String.eqb_neq in Hne. rewrite Hne, Hverify, Hrecover.
    by rewrite String.eqb_refl.
Qed.

(** X2.  The display key of a signed transaction, sender, colon, nonce,
    determines both the sender and the nonce: two signed transactions with
    the same key have the same sender and the same nonce. *)
Theorem database_String_determines_sender_and_nonce tx1 tx2 :
  0 <= database.Nonce (database.SignedTx_Tx tx1) < uint64_mod ->
  0 <= database.Nonce (database.SignedTx_Tx tx2) < uint64_mod ->
  database.SignedTx_String tx1 = database.SignedTx_String tx2 ->
  database.FromID (database.SignedTx_Tx tx1) = database.FromID (database.SignedTx_Tx tx2)
  /\ database.Nonce (database.SignedTx_Tx tx1) = database.Nonce (database.SignedTx_Tx tx2).
Proof.
  intros Hn1 Hn2 Heq. unfold database.SignedTx_String in Heq.
  apply colon_digits_split in Heq as [Hfrom Hnonce];
    [|apply FormatUint_digits; lia..].
  split; [exact Hfrom|]. by apply FormatUint_inj.
Qed.

End database_more.

Section database_more_examples.
Import Go.
#[local] Existing Instance examples.accounts.
#[local] Existing Instance examples.signing.

Lemma database_signed_transfer_is_valid_witness :
  exists stx,
    database.NewTx 1 7 examples.kennedy examples.pavel 100 5 []
      = (examples.tx_of 1 7 examples.kennedy examples.pavel 5, None)
    /\ database.Sign (H := examples.signing)
         (examples.tx_of 1 7 examples.kennedy examples.pavel 5)
         examples.kennedy = (stx, None)
    /\ database.SignedTx_Tx stx = examples.tx_of 1 7 examples.kennedy examples.pavel 5
    /\ database.Validate stx 1 = None.
Proof.
  apply (@database_signed_transfer_is_valid examples.accounts examples.signing
           1 7 examples.kennedy examples.pavel 100 5 [] examples.kennedy
           (Some 29) (Some 42) (Some 8)).
  - vm_compute. reflexivity.
  - vm_compute. reflexivity.
  - discriminate.
  - reflexivity.
  - reflexivity.
  - vm_compute. reflexivity.
Defined.

Lemma database_String_determines_sender_and_nonce_witness :
  database.FromID (database.SignedTx_Tx examples.self_payment)
    = database.FromID (database.SignedTx_Tx
                         (examples.signed (examples.tx_of 2 7 examples.kennedy examples.pavel 9) 3))
  /\ database.Nonce (database.SignedTx_Tx examples.self_payment)
     = database.Nonce (database.SignedTx_Tx
                         (examples.signed (examples.tx_of 2 7 examples.kennedy examples.pavel 9) 3)).
Proof.
  apply (database_String_determines_sender_and_nonce examples.self_payment
           (examples.signed (examples.tx_of 2 7 examples.kennedy examples.pavel 9) 3)).
  - vm_compute. split; [discriminate|reflexivity].
  - vm_compute. split; [discriminate|reflexivity].
  - reflexivity.
Defined.

Example String_of_self_payment :
  database.SignedTx_String examples.self_payment
    = "0xF01813E4B85e178A83e29B8E7bF26BD830a25f32:7".
Proof. reflexivity. Qed.

End database_more_examples.

(** ** More on the two orderings *)

Section selector_more.
Import Go.

(** Indexing a slice. *)
Lemma index_inside (l : list database.BlockTx) (i : Z) :
  0 <= i < Z.of_nat (length l) ->
  exists x, selector.index l i = Returns x /\ l !! Z.to_nat i = Some x.
Proof.
  intros Hi. unfold selector.index.
  destruct (lookup_lt_is_Some_2 l (Z.to_nat i)) as [x Hx]; [lia|].
  exists x. rewrite Hx.
  replace (0 <=? i) with true by (symmetry; apply Z.leb_le; lia).
  replace (i <? Z.of_nat (length l)) with true by (symmetry; apply Z.ltb_lt; lia).
  done.
Qed.


Lemma index_middle (pre post : list database.BlockTx) x :
  selector.index (pre ++ x :: post) (Z.of_nat (length pre)) = Returns x.
Proof.
  destruct (index_inside (pre ++ x :: post) (Z.of_nat (length pre)))
    as (y & -> & Hy).
  - rewrite length_app. simpl. lia.
  - rewrite Nat2Z.id, list_lookup_middle in Hy by done. by injection Hy as ->.
Qed.

(** X3.  [byNonce.Swap] with both indices in range returns, and exchanges
    the two elements: the element at [i] is the one that was at [j] and the
    other way round, every other position keeps its element, and the new
    list is a permutation of the old one, of the same length. *)
Theorem selector_byNonce_Swap_exchanges (l : list database.BlockTx) (i j : Z) :
  0 <= i < Z.of_nat (length l) ->
  0 <= j < Z.of_nat (length l) ->
  exists l',
    selector.Swap (selector.ByNonce l) i j = Returns (selector.ByNonce l')
    /\ length l' = length l
    /\ l' !! Z.to_nat i = l !! Z.to_nat j
    /\ l' !! Z.to_nat j = l !! Z.to_nat i
    /\ (forall k : nat, k <> Z.to_nat i -> k <> Z.to_nat j -> l' !! k = l !! k)
    /\ l' ≡ₚ l.
Proof.
  intros Hi Hj.
  destruct (index_inside l i Hi) as (bi & Hbi & Hli).
  destruct (index_inside l j Hj) as (bj & Hbj & Hlj).
  exists (<[Z.to_nat j := bi]> (<[Z.to_nat i := bj]> l)).
  assert (Hni : (Z.to_nat i < length l)%nat) by lia.
  assert (Hnj : (Z.to_nat j < length l)%nat) by lia.
  split; [simpl; by rewrite Hbi, Hbj|].
  split; [by rewrite !length_insert|]. split; [|split; [|split]].
  - destruct (decide (Z.to_nat j = Z.to_nat i)) as [Heq|Hne].
    + rewrite Heq, list_lookup_insert_eq by (by rewrite length_insert).
      rewrite Heq in Hlj. congruence.
    + rewrite list_lookup_insert_ne, list_lookup_insert_eq by done. congruence.
  - rewrite list_lookup_insert_eq by (by rewrite length_insert). congruence.
  - intros k Hki Hkj. by rewrite !list_lookup_insert_ne.
  - by apply Permutation_insert_swap.
Qed.


(** What [Less] returns on indices in range. *)
Lemma byNonce_Less_in_range (l : list database.BlockTx) (i j : Z) x y :
  selector.index l i = Returns x -> selector.index l j = Returns y ->
  selector.Less (selector.ByNonce l) i j
    = Returns (database.BlockTx_Nonce x <? database.BlockTx_Nonce y).
Proof. intros Hx Hy. simpl. by rewrite Hx, Hy. Qed.

Lemma byTip_Less_in_range (l : list database.BlockTx) (i j : Z) x y :
  selector.index l i = Returns x -> selector.index l j = Returns y ->
  selector.Less (selector.ByTip l) i j
    = Returns (database.BlockTx_Tip x >? database.BlockTx_Tip y).
Proof. intros Hx Hy. simpl. by rewrite Hx, Hy. Qed.

(** X5.  On the indices of a list, [Less] by nonce and [Less] by tip are
    strict orders: no index is before itself, two indices are not each
    before the other, and before is transitive. *)
Theorem selector_Less_is_a_strict_order (l : list database.BlockTx) (i j k : Z) :
  0 <= i < Z.of_nat (length l) ->
  0 <= j < Z.of_nat (length l) ->
  0 <= k < Z.of_nat (length l) ->
  (selector.Less (selector.ByNonce l) i i = Returns false
   /\ selector.Less (selector.ByTip l) i i = Returns false)
  /\ (selector.Less (selector.ByNonce l) i j = Returns true ->
      selector.Less (selector.ByNonce l) j i = Returns false)
  /\ (selector.Less (selector.ByTip l) i j = Returns true ->
      selector.Less (selector.ByTip l) j i = Returns false)
  /\ (selector.Less (selector.ByNonce l) i j = Returns true ->
      selector.Less (selector.ByNonce l) j k = Returns true ->
      selector.Less (selector.ByNonce l) i k = Returns true)
  /\ (selector.Less (selector.ByTip l) i j = Returns true ->
      selector.Less (selector.ByTip l) j k = Returns true ->
      selector.Less (selector.ByTip l) i k = Returns true).
Proof.
  intros Hi Hj Hk.
  destruct (index_inside l i Hi) as (x & Hx & _).
  destruct (index_inside l j Hj) as (y & Hy & _).
  destruct (index_inside l k Hk) as (z & Hz & _).
  rewrite !(byNonce_Less_in_range l i i x x), !(byTip_Less_in_range l i i x x),
    !(byNonce_Less_in_range l i j x y), !(byTip_Less_in_range l i j x y),
    !(byNonce_Less_in_range l j i y x), !(byTip_Less_in_range l j i y x),
    !(byNonce_Less_in_range l j k y z), !(byTip_Less_in_range l j k y z),
    !(byNonce_Less_in_range l i k x z), !(byTip_Less_in_range l i k x z) by done.
  repeat split; intros; f_equal; simplify_eq; lia.
Qed.

(** The insertion sort by nonce, step by step.  The list is the reversed
    front, the element at hand, and the rest. *)
Lemma swap_neighbours (front post : list database.BlockTx) x y :
  <[length front := x]>
    (<[Datatypes.S (length front) := y]> (front ++ y :: x :: post))
  = front ++ x :: y :: post.
Proof.
  rewrite (insert_app_r_alt front) by lia.
  replace (Datatypes.S (length front) - length front)%nat with 1%nat by lia.
  simpl. rewrite insert_app_r_alt by lia. by rewrite Nat.sub_diag.
Qed.

Lemma insert_back_length less x front :
  length (selector.insert_back less x front) = Datatypes.S (length front).
Proof.
  induction front as [|y front IH]; simpl; [done|].
  destruct (less x y); simpl; by rewrite ?IH.
Qed.

Lemma insert_back_perm less x front :
  selector.insert_back less x front ≡ₚ x :: front.
Proof.
  induction front as [|y front IH]; simpl; [done|].
  destruct (less x y); [|done]. rewrite IH. apply perm_swap.
Qed.

Lemma inner_loop_byNonce (front post : list database.BlockTx) x next :
  selector.run
    (selector.insertion_inner (length front) (Z.of_nat (length front)) next)
    (selector.ByNonce (reverse front ++ x :: post))
  = selector.run next
      (selector.ByNonce
         (reverse (selector.insert_back selector.nonce_less x front) ++ post)).
Proof.
  revert post. induction front as [|y front IH]; intros post.
  - reflexivity.
  - cbn [length selector.insertion_inner selector.run selector.insert_back].
    rewrite reverse_cons, <- app_assoc. cbn [app].
    assert (Hx : selector.index (reverse front ++ y :: x :: post)
                   (Z.of_nat (Datatypes.S (length front))) = Returns x).
    { replace (reverse front ++ y :: x :: post)
        with ((reverse front ++ [y]) ++ x :: post) by (by rewrite <- app_assoc).
      replace (Datatypes.S (length front)) with (length (reverse front ++ [y]))
        by (rewrite length_app, length_reverse; simpl; lia).
      apply index_middle. }
    assert (Hy : selector.index (reverse front ++ y :: x :: post)
                   (Z.of_nat (Datatypes.S (length front)) - 1) = Returns y).
    { replace (Z.of_nat (Datatypes.S (length front)) - 1)
        with (Z.of_nat (length (reverse front))) by (rewrite length_reverse; lia).
      apply index_middle. }
    rewrite (byNonce_Less_in_range _ _ _ x y Hx Hy).
    fold (selector.nonce_less x y).
    destruct (selector.nonce_less x y).
    + cbn [selector.run selector.Swap selector.byNonce_Interface
             selector.byNonce_Swap].
      rewrite Hx, Hy.
      replace (Z.to_nat (Z.of_nat (Datatypes.S (length front)) - 1))
        with (length (reverse front)) by (rewrite length_reverse; lia).
      replace (Z.to_nat (Z.of_nat (Datatypes.S (length front))))
        with (Datatypes.S (length (reverse front)))
        by (rewrite length_reverse; lia).
      rewrite swap_neighbours.
      replace (Z.of_nat (Datatypes.S (length front)) - 1)
        with (Z.of_nat (length front)) by lia.
      rewrite IH, reverse_cons, <- app_assoc. reflexivity.
    + rewrite !reverse_cons, <- !app_assoc. reflexivity.
Qed.

Lemma outer_loop_byNonce (front post : list database.BlockTx) :
  selector.run
    (selector.insertion_outer (length post) 0 (Z.of_nat (length front)))
    (selector.ByNonce (reverse front ++ post))
  = Returns
      (selector.ByNonce
         (reverse (foldl (fun f x => selector.insert_back selector.nonce_less x f)
                     front post))).
Proof.
  revert front. induction post as [|x post IH]; intros front.
  - simpl. by rewrite app_nil_r.
  - cbn [length selector.insertion_outer foldl].
    replace (Z.to_nat (Z.of_nat (length front) - 0)) with (length front) by lia.
    rewrite inner_loop_byNonce.
    replace (Z.of_nat (length front) + 1)
      with (Z.of_nat (length (selector.insert_back selector.nonce_less x front)))
      by (rewrite insert_back_length; lia).
    apply IH.
Qed.

(** Order on the reversed front: every element is at least the ones
    after it. *)
Lemma insert_back_sorted x front :
  StronglySorted (fun a b => database.BlockTx_Nonce b <= database.BlockTx_Nonce a) front ->
  StronglySorted (fun a b => database.BlockTx_Nonce b <= database.BlockTx_Nonce a)
    (selector.insert_back selector.nonce_less x front).
Proof.
  induction front as [|y front IH]; intros Hs; simpl.
  - repeat constructor.
  - apply StronglySorted_cons in Hs as [Hy Hs].
    unfold selector.nonce_less at 1.
    destruct (database.BlockTx_Nonce x <? database.BlockTx_Nonce y) eqn:Hlt.
    + apply Z.ltb_lt in Hlt. apply StronglySorted_cons. split; [|by apply IH].
      rewrite insert_back_perm. constructor; [lia|done].
    + apply Z.ltb_ge in Hlt. apply StronglySorted_cons. split.
      * constructor; [done|]. eapply Forall_impl; [exact Hy|].
        intros z Hz. simpl in *. lia.
      * by apply StronglySorted_cons.
Qed.

Lemma StronglySorted_reverse_flip {A} (R : relation A) (l : list A) :
  StronglySorted R l -> StronglySorted (flip R) (reverse l).
Proof.
  induction 1 as [|x l Hs IH Hx]; [constructor|].
  rewrite reverse_cons. apply StronglySorted_app_2.
  - intros x1 x2 Hx1 Hx2. apply list_elem_of_singleton in Hx2 as ->.
    rewrite elem_of_reverse in Hx1. rewrite Forall_forall in Hx. unfold flip. by apply Hx.
  - exact IH.
  - apply SSorted_cons; constructor.
Qed.

(** X6.  The insertion sort of package sort, run on a list through the
    methods of [byNonce], returns without panic; the list it returns is a
    permutation of the list it was given and is in ascending order of
    nonce. *)
Theorem selector_insertionSort_byNonce_sorts (l : list database.BlockTx) :
  exists l',
    selector.run selector.insertionSort (selector.ByNonce l)
      = Returns (selector.ByNonce l')
    /\ l' ≡ₚ l
    /\ StronglySorted
         (fun a b => database.BlockTx_Nonce a <= database.BlockTx_Nonce b) l'.
Proof.
  destruct l as [|x post].
  - exists []. repeat split; constructor.
  - exists (reverse (foldl (fun f y => selector.insert_back selector.nonce_less y f)
                       [x] post)).
    split; [|split].
    + cbn [selector.insertionSort selector.run selector.Len
             selector.byNonce_Interface selector.byNonce_Len length].
      replace (Z.to_nat (Z.of_nat (Datatypes.S (length post)) - 1))
        with (length post) by lia.
      apply (outer_loop_byNonce [x] post).
    + rewrite reverse_Permutation.
      change (x :: post) with ([x] ++ post). generalize [x].
      induction post as [|y post IH]; intros front; simpl.
      * by rewrite app_nil_r.
      * rewrite IH, insert_back_perm. simpl. apply Permutation_middle.
    + apply (StronglySorted_reverse_flip
               (fun a b => database.BlockTx_Nonce b <= database.BlockTx_Nonce a)).
      assert (Hfront : StronglySorted
                (fun a b => database.BlockTx_Nonce b <= database.BlockTx_Nonce a) [x])
        by repeat constructor.
      revert Hfront. generalize [x].
      induction post as [|y post IH]; intros front Hfront; simpl; [done|].
      apply IH. by apply insert_back_sorted.
Qed.

(** The insertion sort by tip: it goes on as long as no element has a
    higher tip than the one before it. *)
Lemma outer_loop_byTip (pre post : list database.BlockTx) y :
  selector.run
    (selector.insertion_outer (length post) 0
       (Z.of_nat (Datatypes.S (length pre))))
    (selector.ByTip (pre ++ y :: post))
  = if selector.tips_descend_from (database.BlockTx_Tip y) post
    then Returns (selector.ByTip (pre ++ y :: post))
    else Panics (panic_value "implement me").
Proof.
  revert pre y. induction post as [|x post IH]; intros pre y.
  - reflexivity.
  - cbn [length selector.insertion_outer selector.tips_descend_from].
    replace (Z.to_nat (Z.of_nat (Datatypes.S (length pre)) - 0))
      with (Datatypes.S (length pre)) by lia.
    cbn [selector.insertion_inner selector.run].
    assert (Hx : selector.index (pre ++ y :: x :: post)
                   (Z.of_nat (Datatypes.S (length pre))) = Returns x).
    { replace (pre ++ y :: x :: post) with ((pre ++ [y]) ++ x :: post)
        by (by rewrite <- app_assoc).
      replace (Datatypes.S (length pre)) with (length (pre ++ [y]))
        by (rewrite length_app; simpl; lia).
      apply index_middle. }
    assert (Hy : selector.index (pre ++ y :: x :: post)
                   (Z.of_nat (Datatypes.S (length pre)) - 1) = Returns y).
    { replace (Z.of_nat (Datatypes.S (length pre)) - 1)
        with (Z.of_nat (length pre)) by lia.
      apply index_middle. }
    rewrite (byTip_Less_in_range _ _ _ x y Hx Hy).
    destruct (database.BlockTx_Tip x >? database.BlockTx_Tip y) eqn:Hgt.
    + replace (database.BlockTx_Tip x <=? database.BlockTx_Tip y) with false
        by (symmetry; apply Z.leb_gt; apply Z.gtb_lt in Hgt; lia).
      reflexivity.
    + replace (database.BlockTx_Tip x <=? database.BlockTx_Tip y) with true
        by (symmetry; apply Z.leb_le; rewrite Z.gtb_ltb in Hgt;
            apply Z.ltb_ge in Hgt; lia).
      replace (pre ++ y :: x :: post) with ((pre ++ [y]) ++ x :: post)
        by (by rewrite <- app_assoc).
      replace (Z.of_nat (Datatypes.S (length pre)) + 1)
        with (Z.of_nat (Datatypes.S (length (pre ++ [y]))))
        by (rewrite length_app; simpl; lia).
      apply IH.
Qed.

Lemma tips_descend_from_Sorted prev (l : list database.BlockTx) :
  selector.tips_descend_from prev l = true <->
  (forall x, head l = Some x -> database.BlockTx_Tip x <= prev)
  /\ Sorted (fun a b => database.BlockTx_Tip b <= database.BlockTx_Tip a) l.
Proof.
  revert prev. induction l as [|x l IH]; intros prev; simpl.
  - split; [|done]. intros _. split; [done|constructor].
  - rewrite andb_true_iff, Z.leb_le, IH. split.
    + intros (Hx & Hhd & Hs). split; [by intros ? [= <-]|].
      constructor; [done|]. destruct l; constructor. by apply Hhd.
    + intros (Hx & Hs). split; [by apply Hx|].
      inversion Hs as [|? ? Hs' Hhd]; subst. split; [|done].
      intros z Hz. destruct l; simplify_eq/=. by inversion Hhd.
Qed.

Lemma tips_descend_Sorted (l : list database.BlockTx) :
  selector.tips_descend l = true <->
  Sorted (fun a b => database.BlockTx_Tip b <= database.BlockTx_Tip a) l.
Proof.
  destruct l as [|x l]; simpl; [split; [constructor|done]|].
  rewrite tips_descend_from_Sorted. split.
  - intros (Hhd & Hs). constructor; [done|]. destruct l; constructor. by apply Hhd.
  - intros Hs. inversion Hs as [|? ? Hs' Hhd]; subst. split; [|done].
    intros z Hz. destruct l; simplify_eq/=. by inversion Hhd.
Qed.

(** X7.  The insertion sort of package sort, run on a list through the
    methods of [byTip], returns, with the list as it was, exactly when the
    list is already in descending order of tip (no tip higher than the
    one before it); on every other list it ends in the panic of
    [byTip.Swap]. *)
Theorem selector_insertionSort_byTip_needs_sorted_input (l : list database.BlockTx) :
  (Sorted (fun a b => database.BlockTx_Tip b <= database.BlockTx_Tip a) l ->
     selector.run selector.insertionSort (selector.ByTip l)
       = Returns (selector.ByTip l))
  /\ (~ Sorted (fun a b => database.BlockTx_Tip b <= database.BlockTx_Tip a) l ->
      selector.run selector.insertionSort (selector.ByTip l)
        = Panics (panic_value "implement me")).
Proof.
  assert (Hrun : selector.run selector.insertionSort (selector.ByTip l)
                 = if selector.tips_descend l then Returns (selector.ByTip l)
                   else Panics (panic_value "implement me")).
  { destruct l as [|y post]; [reflexivity|].
    cbn [selector.insertionSort selector.run selector.Len
           selector.byTip_Interface selector.byTip_Len length
           selector.tips_descend].
    replace (Z.to_nat (Z.of_nat (Datatypes.S (length post)) - 1))
      with (length post) by lia.
    apply (outer_loop_byTip [] post y). }
  rewrite Hrun. split.
  - intros Hs. apply tips_descend_Sorted in Hs. by rewrite Hs.
  - intros Hs. rewrite <- tips_descend_Sorted in Hs.
    by destruct (selector.tips_descend l).
Qed.

End selector_more.

Section selector_more_examples.
Import Go.

Lemma selector_byNonce_Swap_exchanges_witness :
  exists l',
    selector.Swap
      (selector.ByNonce [examples.blocktx 2 5; examples.blocktx 1 1; examples.blocktx 3 9])
      0 2 = Returns (selector.ByNonce l')
    /\ length l' = 3%nat
    /\ l' !! 0%nat = Some (examples.blocktx 3 9)
    /\ l' !! 2%nat = Some (examples.blocktx 2 5)
    /\ (forall k : nat, k <> 0%nat -> k <> 2%nat ->
          l' !! k = [examples.blocktx 2 5; examples.blocktx 1 1; examples.blocktx 3 9] !! k)
    /\ l' ≡ₚ [examples.blocktx 2 5; examples.blocktx 1 1; examples.blocktx 3 9].
Proof.
  apply (selector_byNonce_Swap_exchanges
           [examples.blocktx 2 5; examples.blocktx 1 1; examples.blocktx 3 9] 0 2);
    simpl; lia.
Defined.


Lemma selector_Less_is_a_strict_order_witness :
  selector.Less
    (selector.ByTip [examples.blocktx 1 9; examples.blocktx 2 5; examples.blocktx 3 1])
    0 2 = Returns true.
Proof.
  destruct (selector_Less_is_a_strict_order
              [examples.blocktx 1 9; examples.blocktx 2 5; examples.blocktx 3 1]
              0 1 2) as (_ & _ & _ & _ & Htrans); [simpl; lia..|].
  apply Htrans; reflexivity.
Defined.

Lemma selector_insertionSort_byTip_needs_sorted_input_witness :
  selector.run selector.insertionSort
    (selector.ByTip [examples.blocktx 1 9; examples.blocktx 2 5; examples.blocktx 3 5])
  = Returns
      (selector.ByTip [examples.blocktx 1 9; examples.blocktx 2 5; examples.blocktx 3 5])
  /\ selector.run selector.insertionSort
       (selector.ByTip [examples.blocktx 1 9; examples.blocktx 2 5; examples.blocktx 3 7])
     = Panics (panic_value "implement me").
Proof.
  split.
  - apply selector_insertionSort_byTip_needs_sorted_input.
    apply tips_descend_Sorted. reflexivity.
  - apply selector_insertionSort_byTip_needs_sorted_input.
    rewrite <- tips_descend_Sorted. discriminate.
Defined.

Example insertionSort_byNonce_three :
  selector.run selector.insertionSort
    (selector.ByNonce [examples.blocktx 3 1; examples.blocktx 1 5; examples.blocktx 2 9])
  = Returns
      (selector.ByNonce [examples.blocktx 1 5; examples.blocktx 2 9; examples.blocktx 3 1]).
Proof. reflexivity. Qed.

End selector_more_examples.

(** ** More on the block store *)

Section disk_more.
Import Go.
Context `{disk.Libraries}.

(** The file operations touch the one path they are given. *)
Lemma OpenFile_other_path fs name flag perm p :
  p <> name ->
  os.files (fst (os.OpenFile fs name flag perm)) !! p = os.files fs !! p.
Proof.
  intros Hp. unfold os.OpenFile.
  destruct (os.files fs !! name) as [ino|].
  - destruct (os.wants_write flag && os.readonly fs); [done|].
    destruct ((os.wants_read flag && negb (os.owner_may_read ino))
              || (os.wants_write flag && negb (os.owner_may_write ino))); [done|].
    destruct (Z.testbit flag 9 && os.wants_write flag); [|done].
    simpl. by rewrite lookup_insert_ne.
  - destruct (Z.testbit flag 6); [|done].
    destruct (os.readonly fs); [done|]. simpl. by rewrite lookup_insert_ne.
Qed.

Lemma OpenFile_handle fs name flag perm fs1 f :
  os.OpenFile fs name flag perm = (fs1, inl f) ->
  f = {| os.f_name := name; os.f_flag := flag; os.f_offset := 0 |}.
Proof.
  unfold os.OpenFile. destruct (os.files fs !! name) as [ino|].
  - destruct (os.wants_write flag && os.readonly fs); [done|].
    destruct ((os.wants_read flag && negb (os.owner_may_read ino))
              || (os.wants_write flag && negb (os.owner_may_write ino))); [done|].
    destruct (Z.testbit flag 9 && os.wants_write flag); by intros [= _ <-].
  - destruct (Z.testbit flag 6); [|done].
    destruct (os.readonly fs); [done|]. by intros [= _ <-].
Qed.

Lemma File_Write_other_path fs f b p :
  p <> os.f_name f ->
  os.files (fst (fst (os.File_Write fs f b))) !! p = os.files fs !! p.
Proof.
  intros Hp. unfold os.File_Write.
  destruct (os.files fs !! os.f_name f) as [ino|]; [|done].
  destruct (negb (os.wants_write (os.f_flag f))); [done|].
  simpl. by rewrite lookup_insert_ne.
Qed.

(** [Write] touches the record of the block and no other path, whatever
    comes of it. *)
Lemma Write_other_path d b fs p :
  p <> disk.getPath d (database.Number (database.Header b)) ->
  os.files (fst (disk.Write d b fs)) !! p = os.files fs !! p.
Proof.
  intros Hp. unfold disk.Write.
  destruct (disk.json_MarshalIndent b "" "  ") as [data|text]; [|done].
  pose proof (OpenFile_other_path fs
                (disk.getPath d (database.Number (database.Header b)))
                (Z.lor os.O_CREATE os.O_RDWR) 384 p Hp) as Hopen.
  destruct (os.OpenFile fs _ _ _) as [fs1 [f|err]] eqn:Eopen; [|done].
  pose proof (OpenFile_handle _ _ _ _ _ _ Eopen) as Hf. simpl in Hopen.
  assert (Hwrite : os.files (fst (fst (os.File_Write fs1 f data))) !! p
                   = os.files fs1 !! p)
    by (apply File_Write_other_path; by subst f).
  destruct (os.File_Write fs1 f data) as [[fs2 f'] [n [err|]]];
    unfold os.File_Close; simpl in *; by rewrite Hwrite, Hopen.
Qed.

(** The result of [GetBlock] is a matter of the record file alone. *)
Lemma GetBlock_same_record d num fs1 fs2 :
  os.files fs1 !! disk.getPath d num = os.files fs2 !! disk.getPath d num ->
  snd (disk.GetBlock d num fs1) = snd (disk.GetBlock d num fs2).
Proof.
  intros Heq.
  destruct (os.files fs2 !! disk.getPath d num) as [ino|] eqn:Hfile.
  - destruct (os.owner_may_read ino) eqn:Hmode.
    + by rewrite (GetBlock_present _ _ _ _ Heq Hmode),
        (GetBlock_present _ _ _ _ Hfile Hmode).
    + by rewrite (GetBlock_unreadable _ _ _ _ Heq Hmode),
        (GetBlock_unreadable _ _ _ _ Hfile Hmode).
  - by rewrite (GetBlock_missing _ _ _ Heq), (GetBlock_missing _ _ _ Hfile).
Qed.

Lemma getPath_inj d n m :
  disk.keeps_records_apart d ->
  0 <= n < uint64_mod -> 0 <= m < uint64_mod ->
  disk.getPath d n = disk.getPath d m -> n = m.
Proof.
  intros Hjoin Hn Hm Heq.
  apply (Hjoin n m Hn Hm), string_app_inj_r in Heq. by apply FormatUint_inj.
Qed.

(** X8.  Different block numbers are kept in different files: the file
    names of two 64-bit numbers, the number in decimal and [.json], are
    the same only for the same number; so, when [path.Join] with the
    directory of the store keeps the file names of records apart,
    [getPath] is one-to-one on the 64-bit numbers. *)
Theorem disk_getPath_is_one_to_one d n m :
  disk.keeps_records_apart d ->
  0 <= n < uint64_mod -> 0 <= m < uint64_mod ->
  (disk.recordName n = disk.recordName m <-> n = m)
  /\ (disk.getPath d n = disk.getPath d m <-> n = m).
Proof.
  intros Hjoin Hn Hm. split.
  - split; [|by intros ->]. intros Heq.
    apply string_app_inj_r in Heq. by apply FormatUint_inj.
  - split; [by apply getPath_inj|by intros ->].
Qed.

(** X9.  [Write] of a block leaves every other block as it was: when
    [path.Join] with the directory of the store keeps the file names of
    records apart, then, whether [Write] returns an error or not,
    [GetBlock] of any other number returns after it what it returned
    before. *)
Theorem disk_Write_leaves_other_blocks d b fs m :
  disk.keeps_records_apart d ->
  0 <= m < uint64_mod ->
  0 <= database.Number (database.Header b) < uint64_mod ->
  m <> database.Number (database.Header b) ->
  snd (disk.GetBlock d m (fst (disk.Write d b fs))) = snd (disk.GetBlock d m fs).
Proof.
  intros Hjoin Hm Hn Hne. apply GetBlock_same_record, Write_other_path.
  intros Heq. by apply getPath_inj in Heq.
Qed.

(** X10.  Over no record, or over a record that is not longer than the
    new encoding, a [Write] without error leaves exactly the encoding of
    the block in the file. *)
Theorem disk_Write_replaces_shorter_record d b fs data fs' :
  disk.json_MarshalIndent b "" "  " = inl data ->
  (length (os.previous fs (disk.getPath d (database.Number (database.Header b))))
   <= length data)%nat ->
  disk.Write d b fs = (fs', None) ->
  os.previous fs' (disk.getPath d (database.Number (database.Header b))) = data.
Proof.
  intros Henc Hlen Hw.
  destruct (Write_stored _ _ _ _ _ Henc Hw) as (ino & Hino & _ & Hdata).
  unfold os.previous at 1. rewrite Hino, Hdata.
  by rewrite drop_ge, app_nil_r.
Qed.

(** One call of [Next] hands the file system on as it got it. *)
Lemma Next_fs di fs : snd (fst (disk.Next di fs)) = fs.
Proof.
  unfold disk.Next. destruct (disk.endOfChain di); [done|]. simpl.
  pose proof (GetBlock_fs (disk.storage di)
                (uint64_incr (disk.currentBlockNumber di)) fs) as Hfs.
  destruct (disk.GetBlock _ _ fs) as [fs1 [blk err]]. exact Hfs.
Qed.

(** X11.  Reading does not write: [GetBlock] and any number of calls of
    [Next], on any iterator, hand the file system back as it was. *)
Theorem disk_reading_leaves_the_store (n : nat) di d num fs :
  fst (disk.GetBlock d num fs) = fs
  /\ snd (fst (disk.Next_times n di fs)) = fs.
Proof.
  split; [apply GetBlock_fs|].
  revert di. induction n as [|n IH]; intros di; simpl; [done|].
  pose proof (Next_fs di fs) as Hfs.
  destruct (disk.Next di fs) as [[di1 fs1] r]. simpl in Hfs. subst fs1.
  specialize (IH di1).
  by destruct (disk.Next_times n di1 fs) as [[di2 fs2] rs].
Qed.

Lemma Next_times_latched (n : nat) di fs :
  disk.endOfChain di = true ->
  disk.Next_times n di fs =
    (di, fs,
     replicate n (database.BlockData_zero, Some (errors_New "end of chain"))).
Proof.
  intros Hdone. induction n as [|n IH]; simpl; [done|].
  unfold disk.Next at 1. rewrite Hdone. by rewrite IH.
Qed.

(** X12.  Done stays done: on an iterator that has latched, every further
    call, however many, returns the end-of-chain error, reads nothing, and
    leaves the iterator as it is; no record written later is ever
    returned by it. *)
Theorem disk_iterator_stays_done (n : nat) di fs :
  disk.Done di = true ->
  disk.Next_times n di fs =
    (di, fs,
     replicate n (database.BlockData_zero, Some (errors_New "end of chain"))).
Proof. apply Next_times_latched. Qed.

(** X13.  The whole run of an iterator over a store that holds the chain
    [bs]: however many calls are made after the first [N], the results are
    the [N] blocks, then the not-exist error once, then the end-of-chain
    error every time; so the iterator returns [N] blocks and never
    more. *)
Theorem disk_iterator_returns_the_chain_and_no_more d fs bs (m : nat) :
  disk.holds_chain d fs bs ->
  disk.Next_times (length bs + Datatypes.S m) (disk.ForEach d) fs =
    ({| disk.storage := d;
        disk.currentBlockNumber := uint64_incr (Z.of_nat (length bs));
        disk.endOfChain := true |}, fs,
     ((fun b => (b, None)) <$> bs)
       ++ (database.BlockData_zero,
           Some (PathError "open"
                   (disk.getPath d (uint64_incr (Z.of_nat (length bs)))) ENOENT))
       :: replicate m (database.BlockData_zero, Some (errors_New "end of chain"))).
Proof.
  intros Hchain.
  assert (Hlast : disk.Next
            {| disk.storage := d;
               disk.currentBlockNumber := Z.of_nat (length bs);
               disk.endOfChain := false |} fs =
            ({| disk.storage := d;
                disk.currentBlockNumber := uint64_incr (Z.of_nat (length bs));
                disk.endOfChain := true |}, fs,
             (database.BlockData_zero,
              Some (PathError "open"
                      (disk.getPath d (uint64_incr (Z.of_nat (length bs)))) ENOENT)))).
  { destruct Hchain as (_ & _ & Hnone).
    unfold disk.Next. simpl. by rewrite (GetBlock_missing _ _ _ Hnone). }
  rewrite Next_times_add. unfold disk.ForEach.
  change 0 with (Z.of_nat 0).
  rewrite (Next_times_inside_chain _ _ _ (length bs) 0%nat Hchain) by lia.
  rewrite drop_0, firstn_all. cbn [disk.Next_times Nat.add].
  rewrite Hlast, Next_times_latched by done. reflexivity.
Qed.

(** X14.  A record that cannot be opened for reading or does not decode is
    passed over, not tried again: the call that meets it returns its
    error without latching, the number stays advanced, and the call after
    it returns what [GetBlock] returns for the number after. *)
Theorem disk_iterator_passes_over_bad_record di fs ino :
  disk.endOfChain di = false ->
  os.files fs !! disk.getPath (disk.storage di)
                   (uint64_incr (disk.currentBlockNumber di)) = Some ino ->
  os.owner_may_read ino = false
  \/ (exists text, disk.json_Decoder_Decode (os.i_data ino) = inr text) ->
  let first := disk.Next di fs in
  let second := disk.Next (fst (fst first)) (snd (fst first)) in
  snd (snd first) <> None
  /\ disk.Done (fst (fst first)) = false
  /\ disk.currentBlockNumber (fst (fst first))
     = uint64_incr (disk.currentBlockNumber di)
  /\ snd second =
       snd (disk.GetBlock (disk.storage di)
              (uint64_incr (uint64_incr (disk.currentBlockNumber di))) fs).
Proof.
  intros Hlive Hino Hbad first second.
  assert (Hfirst : exists err,
             first = ({| disk.storage := disk.storage di;
                         disk.currentBlockNumber :=
                           uint64_incr (disk.currentBlockNumber di);
                         disk.endOfChain := false |}, fs,
                      (database.BlockData_zero, Some err))).
  { subst first. unfold disk.Next. rewrite Hlive. simpl.
    destruct Hbad as [Hmode|[text Hdec]].
    - rewrite (GetBlock_unreadable _ _ _ _ Hino Hmode). eauto.
    - destruct (os.owner_may_read ino) eqn:Hmode.
      + rewrite (GetBlock_present _ _ _ _ Hino Hmode), Hdec. eauto.
      + rewrite (GetBlock_unreadable _ _ _ _ Hino Hmode). eauto. }
  destruct Hfirst as [err Hfirst]. subst second. rewrite Hfirst. simpl.
  repeat split; [done|].
  unfold disk.Next. simpl.
  pose proof (GetBlock_fs (disk.storage di)
                (uint64_incr (uint64_incr (disk.currentBlockNumber di))) fs).
  by destruct (disk.GetBlock _ _ fs) as [fs1 [blk e]].
Qed.

(** A [Write] that got past the encoder and reports no error: the record,
    its mode, and the file system around it. *)
Lemma Write_stored_mode d b fs data fs' :
  disk.json_MarshalIndent b "" "  " = inl data ->
  disk.Write d b fs = (fs', None) ->
  exists ino,
    os.files fs' !! disk.getPath d (database.Number (database.Header b)) = Some ino
    /\ os.owner_may_read ino = true
    /\ os.owner_may_write ino = true
    /\ os.readonly fs' = false
    /\ os.i_data ino =
         data ++ drop (length data)
                   (os.previous fs (disk.getPath d (database.Number (database.Header b)))).
Proof.
  intros Henc. unfold disk.Write, os.previous. rewrite Henc.
  set (path := disk.getPath d (database.Number (database.Header b))).
  destruct (os.OpenFile fs path (Z.lor os.O_CREATE os.O_RDWR) 384)
    as [fs1 [f|err]] eqn:Hopen; [|done].
  destruct (os.File_Write fs1 f data) as [[fs2 f'] [n [err|]]] eqn:Hwrite; [done|].
  intros [= <-]. unfold os.File_Close.
  pose proof (OpenFile_handle _ _ _ _ _ _ Hopen) as ->.
  apply File_Write_complete in Hwrite as (ino1 & Hino1 & Hfiles & Hro).
  simpl in Hino1, Hfiles. revert Hopen. unfold os.OpenFile.
  destruct create_rdwr_flags as (-> & -> & -> & ->).
  destruct (os.files fs !! path) as [ino|] eqn:Hfile; simpl.
  - destruct (os.readonly fs) eqn:Hrofs; [done|].
    destruct (os.owner_may_read ino) eqn:Hr; [|done].
    destruct (os.owner_may_write ino) eqn:Hw; [|done].
    simpl. intros [= <-].
    rewrite Hfile in Hino1. injection Hino1 as <-.
    eexists. rewrite Hfiles, lookup_insert_eq. split; [reflexivity|].
    split; [exact Hr|]. split; [exact Hw|]. split; [congruence|].
    simpl. apply overwrite_at_start.
  - destruct (os.readonly fs) eqn:Hrofs; [done|].
    intros [= <-]. simpl in *.
    rewrite lookup_insert_eq in Hino1. injection Hino1 as <-.
    eexists. rewrite Hfiles, lookup_insert_eq. split; [reflexivity|].
    split; [reflexivity|]. split; [reflexivity|]. split; [by rewrite Hro|].
    simpl. apply overwrite_at_start.
Qed.

(** X15.  Writing the same block again changes nothing: after a [Write]
    without error, a second [Write] of the block returns [nil] and leaves
    the file system exactly as the first one left it. *)
Theorem disk_Write_twice_is_Write_once d b fs data fs1 :
  disk.json_MarshalIndent b "" "  " = inl data ->
  disk.Write d b fs = (fs1, None) ->
  disk.Write d b fs1 = (fs1, None).
Proof.
  intros Henc Hw.
  destruct (Write_stored_mode _ _ _ _ _ Henc Hw)
    as (ino & Hino & Hr & Hwr & Hro & Hdata).
  unfold disk.Write. rewrite Henc.
  set (path := disk.getPath d (database.Number (database.Header b))) in *.
  unfold os.OpenFile. destruct create_rdwr_flags as (-> & -> & -> & ->).
  rewrite Hino, Hro, Hr, Hwr. simpl.
  unfold os.File_Write. simpl. rewrite Hino. simpl.
  rewrite Nat.sub_0_r.
  assert (Hlen : (length data <= length (os.i_data ino))%nat)
    by (rewrite Hdata, length_app; lia).
  replace (length data `min` (length (os.i_data ino) + os.free fs1))%nat
    with (length data) by lia.
  rewrite Nat.ltb_irrefl, firstn_all, overwrite_at_start.
  replace (length data - length (os.i_data ino))%nat with 0%nat by lia.
  rewrite Nat.sub_0_r. unfold os.File_Close. f_equal.
  assert (Hsame : data ++ drop (length data) (os.i_data ino) = os.i_data ino).
  { rewrite Hdata at 1. rewrite drop_app_length. by rewrite <- Hdata. }
  rewrite Hsame.
  replace {| os.i_mode := os.i_mode ino; os.i_data := os.i_data ino |}
    with ino by (by destruct ino).
  rewrite insert_id by done. by destruct fs1.
Qed.

(** Blocks numbered from [j+1] on, written one after the other: every one
    of them is then a readable record that decodes to it, and no path but
    theirs has changed. *)
Lemma Write_each_records d bs : forall fs fs' (j : nat),
  disk.keeps_records_apart d ->
  Z.of_nat j + Z.of_nat (length bs) < uint64_mod ->
  (forall (k : nat) b, bs !! k = Some b ->
     database.Number (database.Header b) = Z.of_nat j + Z.of_nat k + 1) ->
  (forall b, b ∈ bs ->
     exists data, disk.json_MarshalIndent b "" "  " = inl data
       /\ forall rest, disk.json_Decoder_Decode (data ++ rest) = inl b) ->
  disk.Write_each d bs fs = (fs', None) ->
  (forall (k : nat) b, bs !! k = Some b ->
     exists ino,
       os.files fs' !! disk.getPath d (Z.of_nat j + Z.of_nat k + 1) = Some ino
       /\ os.owner_may_read ino = true
       /\ disk.json_Decoder_Decode (os.i_data ino) = inl b)
  /\ (forall p,
        (forall k : nat, (k < length bs)%nat ->
           p <> disk.getPath d (Z.of_nat j + Z.of_nat k + 1)) ->
        os.files fs' !! p = os.files fs !! p).
Proof.
  induction bs as [|b bs IH]; intros fs fs' j Hjoin Hbound Hnum Hcodec Hw.
  - simpl in Hw. injection Hw as <-. split; [by intros k b Hb|done].
  - simpl in Hw.
    destruct (disk.Write d b fs) as [fs1 [err|]] eqn:Hwb; [done|].
    simpl in Hbound.
    assert (Hb : database.Number (database.Header b) = Z.of_nat j + 1)
      by (rewrite (Hnum 0%nat b eq_refl); lia).
    destruct (IH fs1 fs' (Datatypes.S j) Hjoin) as [Hrec Hframe]; [lia| | |done|].
    { intros k b' Hb'. rewrite (Hnum (Datatypes.S k) b' Hb'). lia. }
    { intros b' Hb'. apply Hcodec. by right. }
    split.
    + intros [|k] b' Hb'; simpl in Hb'.
      * injection Hb' as <-.
        destruct (Hcodec b) as (data & Henc & Hdec); [by left|].
        destruct (Write_stored _ _ _ _ _ Henc Hwb) as (ino & Hino & Hmode & Hdata).
        exists ino. rewrite Hb in Hino.
        replace (Z.of_nat j + Z.of_nat 0 + 1) with (Z.of_nat j + 1) by lia.
        rewrite Hframe; [by rewrite Hdata, Hdec|].
        intros k Hk Heq. apply getPath_inj in Heq; [lia|done|lia..].
      * destruct (Hrec k b' Hb') as (ino & Hino & Hmode & Hdec).
        exists ino.
        replace (Z.of_nat j + Z.of_nat (Datatypes.S k) + 1)
          with (Z.of_nat (Datatypes.S j) + Z.of_nat k + 1) by lia.
        done.
    + intros p Hp. rewrite Hframe.
      * replace fs1 with (fst (disk.Write d b fs)) by (by rewrite Hwb).
        apply Write_other_path. rewrite Hb.
        replace (Z.of_nat j + 1) with (Z.of_nat j + Z.of_nat 0 + 1) by lia.
        apply Hp. simpl. lia.
      * intros k Hk.
        replace (Z.of_nat (Datatypes.S j) + Z.of_nat k + 1)
          with (Z.of_nat j + Z.of_nat (Datatypes.S k) + 1) by lia.
        apply Hp. simpl. lia.
Qed.

(** X16.  What is written is what is replayed, when [path.Join] with the
    directory of the store keeps the file names of records apart.  Blocks
    numbered one to [N], each of which the encoder accepts and the decoder
    reads back from the front of a stream, written in this order without
    error into a directory that has no record for the number after [N]:
    the store then holds this chain, and the first [N] calls of a fresh
    iterator return these blocks in this order. *)
Theorem disk_written_chain_is_replayed d bs fs fs' :
  disk.keeps_records_apart d ->
  Z.of_nat (length bs) < uint64_mod ->
  (forall (k : nat) b, bs !! k = Some b ->
     database.Number (database.Header b) = Z.of_nat k + 1) ->
  (forall b, b ∈ bs ->
     exists data, disk.json_MarshalIndent b "" "  " = inl data
       /\ forall rest, disk.json_Decoder_Decode (data ++ rest) = inl b) ->
  os.files fs !! disk.getPath d (uint64_incr (Z.of_nat (length bs))) = None ->
  disk.Write_each d bs fs = (fs', None) ->
  disk.holds_chain d fs' bs
  /\ snd (disk.Next_times (length bs) (disk.ForEach d) fs')
     = (fun b => (b, None)) <$> bs.
Proof.
  intros Hjoin Hbound Hnum Hcodec Hnone Hw.
  destruct (Write_each_records d bs fs fs' 0%nat Hjoin) as [Hrec Hframe];
    [simpl; lia|by intros k b Hb; rewrite (Hnum k b Hb)|done..|].
  assert (Hchain : disk.holds_chain d fs' bs).
  { split; [done|]. split.
    - intros k b Hb. split; [by apply Hnum|].
      destruct (Hrec k b Hb) as (ino & Hino & Hmode & Hdec). by exists ino.
    - rewrite Hframe; [done|]. intros k Hk Heq.
      assert (Hrange : 0 <= uint64_incr (Z.of_nat (length bs)) < uint64_mod)
        by (apply Z.mod_pos_bound; reflexivity).
      apply getPath_inj in Heq; [|done|done|simpl; lia].
      unfold uint64_incr in Heq.
      destruct (decide (Z.of_nat (length bs) + 1 < uint64_mod)) as [Hsmall|Hbig].
      + rewrite Z.mod_small in Heq by lia. simpl in Heq. lia.
      + replace (Z.of_nat (length bs) + 1) with uint64_mod in Heq by lia.
        rewrite Z.mod_same in Heq by (unfold uint64_mod; lia).
        simpl in Heq. lia. }
  split; [exact Hchain|].
  unfold disk.ForEach. change 0 with (Z.of_nat 0).
  rewrite (Next_times_inside_chain _ _ _ (length bs) 0%nat Hchain) by lia.
  simpl. by rewrite drop_0, firstn_all.
Qed.

End disk_more.

Section disk_more_examples.
Import Go.
#[local] Existing Instance examples.libraries.

Lemma string_app_inj_l (s x y : string) :
  (s ++ x)%string = (s ++ y)%string -> x = y.
Proof.
  induction s as [|c s IH]; [done|].
  rewrite !string_app_cons. intros [= Heq]. by apply IH.
Qed.

(** Joined to the directory of the example store, the file names of
    records stay apart. *)
Lemma example_join_inj : disk.keeps_records_apart examples.store.
Proof.
  intros n m _ _ Heq.
  apply (string_app_inj_l "/"), (string_app_inj_l "zblock/miner1"). exact Heq.
Qed.

Lemma disk_getPath_is_one_to_one_witness :
  disk.getPath examples.store 3 = disk.getPath examples.store 4 <-> 3 = 4.
Proof.
  apply (disk_getPath_is_one_to_one examples.store 3 4 example_join_inj);
    split; (discriminate || reflexivity).
Defined.

Lemma disk_Write_leaves_other_blocks_witness :
  snd (disk.GetBlock examples.store 2
         (fst (disk.Write examples.store (examples.block 1 []) examples.two_blocks_fs)))
  = snd (disk.GetBlock examples.store 2 examples.two_blocks_fs).
Proof.
  apply (disk_Write_leaves_other_blocks examples.store (examples.block 1 [])
           examples.two_blocks_fs 2 example_join_inj).
  - split; (discriminate || reflexivity).
  - split; (discriminate || reflexivity).
  - discriminate.
Defined.

Lemma Write_to_empty_runs :
  snd (disk.Write examples.store (examples.block 1 []) examples.empty_fs) = None.
Proof. vm_compute. reflexivity. Qed.

Lemma disk_Write_replaces_shorter_record_witness :
  os.previous
    (fst (disk.Write examples.store (examples.block 1 []) examples.empty_fs))
    "zblock/miner1/1.json" = list_byte_of_string "block:1;".
Proof.
  assert (Hw : disk.Write examples.store (examples.block 1 []) examples.empty_fs
               = (fst (disk.Write examples.store (examples.block 1 [])
                         examples.empty_fs), None)).
  { rewrite (surjective_pairing (disk.Write _ _ _)).
    by rewrite Write_to_empty_runs. }
  assert (Hlen : (length (os.previous examples.empty_fs
                            (disk.getPath examples.store
                               (database.Number
                                  (database.Header (examples.block 1 [])))))
                  <= length (list_byte_of_string "block:1;"))%nat)
    by (vm_compute; lia).
  exact (disk_Write_replaces_shorter_record examples.store (examples.block 1 [])
           examples.empty_fs (list_byte_of_string "block:1;") _ eq_refl Hlen Hw).
Defined.

Lemma disk_iterator_stays_done_witness :
  disk.Next_times 3
    {| disk.storage := examples.store; disk.currentBlockNumber := 3;
       disk.endOfChain := true |} examples.two_blocks_fs
  = ({| disk.storage := examples.store; disk.currentBlockNumber := 3;
        disk.endOfChain := true |}, examples.two_blocks_fs,
     replicate 3 (database.BlockData_zero, Some (errors_New "end of chain"))).
Proof. apply disk_iterator_stays_done. reflexivity. Defined.

Lemma disk_iterator_returns_the_chain_and_no_more_witness :
  snd (disk.Next_times 5 (disk.ForEach examples.store) examples.two_blocks_fs)
  = [(examples.block 1 [], None); (examples.block 2 [], None);
     (database.BlockData_zero,
      Some (PathError "open" "zblock/miner1/3.json" ENOENT));
     (database.BlockData_zero, Some (errors_New "end of chain"));
     (database.BlockData_zero, Some (errors_New "end of chain"))].
Proof.
  pose proof (disk_iterator_returns_the_chain_and_no_more examples.store
                examples.two_blocks_fs
                [examples.block 1 []; examples.block 2 []] 2
                two_blocks_fs_holds_chain) as Hrun.
  simpl length in Hrun. simpl Nat.add in Hrun. by rewrite Hrun.
Defined.

Lemma disk_iterator_passes_over_bad_record_witness :
  snd (snd (disk.Next (disk.ForEach examples.store)
              (examples.fs_with "zblock/miner1/1.json" "garbage"))) <> None
  /\ disk.Done
       (fst (fst (disk.Next (disk.ForEach examples.store)
                    (examples.fs_with "zblock/miner1/1.json" "garbage")))) = false.
Proof.
  destruct (disk_iterator_passes_over_bad_record (disk.ForEach examples.store)
              (examples.fs_with "zblock/miner1/1.json" "garbage")
              {| os.i_mode := 384; os.i_data := list_byte_of_string "garbage" |})
    as (Herr & Hdone & _).
  - reflexivity.
  - vm_compute. reflexivity.
  - right. exists "unexpected start of record". reflexivity.
  - split; [exact Herr|exact Hdone].
Defined.

Lemma disk_Write_twice_is_Write_once_witness :
  disk.Write examples.store (examples.block 1 [])
    (fst (disk.Write examples.store (examples.block 1 []) examples.empty_fs))
  = (fst (disk.Write examples.store (examples.block 1 []) examples.empty_fs), None).
Proof.
  apply (disk_Write_twice_is_Write_once examples.store (examples.block 1 [])
           examples.empty_fs (list_byte_of_string "block:1;")).
  - reflexivity.
  - rewrite (surjective_pairing (disk.Write _ _ _)).
    by rewrite Write_to_empty_runs.
Defined.

Lemma Write_each_to_empty_runs :
  snd (disk.Write_each examples.store
         [examples.block 1 []; examples.block 2 []] examples.empty_fs) = None.
Proof. vm_compute. reflexivity. Qed.

Lemma decode_line_front_two rest :
  examples.decode_line (list_byte_of_string "block:2;" ++ rest)
    = inl (examples.block 2 []).
Proof. reflexivity. Qed.

Lemma disk_written_chain_is_replayed_witness :
  snd (disk.Next_times 2 (disk.ForEach examples.store)
         (fst (disk.Write_each examples.store
                 [examples.block 1 []; examples.block 2 []] examples.empty_fs)))
  = [(examples.block 1 [], None); (examples.block 2 [], None)].
Proof.
  apply (disk_written_chain_is_replayed examples.store
           [examples.block 1 []; examples.block 2 []] examples.empty_fs).
  - exact example_join_inj.
  - reflexivity.
  - intros [|[|k]] b Hb; simpl in Hb; [| |done]; by injection Hb as <-.
  - intros b Hb. apply elem_of_cons in Hb as [->|Hb].
    + exists (list_byte_of_string "block:1;"). split; [reflexivity|].
      exact decode_line_front.
    + apply list_elem_of_singleton in Hb as ->.
      exists (list_byte_of_string "block:2;"). split; [reflexivity|].
      exact decode_line_front_two.
  - vm_compute. reflexivity.
  - rewrite (surjective_pairing (disk.Write_each _ _ _)).
    by rewrite Write_each_to_empty_runs.
Defined.

End disk_more_examples.
